(** * LingoLog: history store, persistence and vocabulary index

    A shallow embedding of the application logic of [index.tsx]: the
    [App] component's state and handlers ([handleAnalyze],
    [handleAskTutor], [handleDelete]), its two persistence effects, the
    service functions [analyzeSentence] and [askTutor], and the
    vocabulary aggregation and search of [DictionaryTab].

    - The values that pass through [JSON.parse] and [JSON.stringify] are
      JavaScript values of the type [JSON]: the history holds whatever
      the model's response parsed to, completed with [id], [timestamp]
      and [original]; nothing in the program checks its shape.
    - Strings are sequences of 8-bit code units ([string]); numbers are
      integers ([Z]), which is what [Date.now()] returns.
    - [JSON.parse], [JSON.stringify] and the API key come from the host
      ([Platform]).  The handlers are stated over any host; the snapshot
      round trip is proved over a text model of the two functions
      ([JSONText]): compact output, the escapes of QuoteJSONString, a
      reader for the JSON grammar restricted to integers and to [\u]
      escapes below 256.
    - [localeCompare] and [toLowerCase] come from the locale ([Locale]).
    - A handler gets the outcome of its call to the external model and
      its readings of the clock as arguments. *)

From Stdlib Require Import ZArith Ascii String List Bool Lia.
From Stdlib Require Import Decimal DecimalFacts DecimalPos DecimalZ.
From Stdlib Require Import OrderedTypeEx.
From stdpp Require Import base option list sorting strings gmap.

Local Open Scope Z_scope.

(** ** JavaScript values of the JSON fragment *)

Local Unset Elimination Schemes.

Inductive JSON : Type :=
| JNull
| JBool (b : bool)
| JNum (n : Z)
| JStr (s : string)
| JArr (elems : list JSON)
| JObj (props : list (string * JSON)).

Local Set Elimination Schemes.

(** Induction principle that reaches below arrays and objects. *)
Section JSON_induction.
Variable P : JSON → Prop.
Hypothesis Hnull : P JNull.
Hypothesis Hbool : ∀ b, P (JBool b).
Hypothesis Hnum : ∀ n, P (JNum n).
Hypothesis Hstr : ∀ s, P (JStr s).
Hypothesis Harr : ∀ l, Forall P l → P (JArr l).
Hypothesis Hobj : ∀ ps, Forall (λ kv, P kv.2) ps → P (JObj ps).

Fixpoint JSON_nested_ind (v : JSON) : P v :=
  match v with
  | JNull => Hnull
  | JBool b => Hbool b
  | JNum n => Hnum n
  | JStr s => Hstr s
  | JArr l =>
      Harr l ((fix go (l : list JSON) : Forall P l :=
                 match l with
                 | [] => Forall_nil_2 P
                 | x :: l' => Forall_cons_2 P x l' (JSON_nested_ind x) (go l')
                 end) l)
  | JObj ps =>
      Hobj ps ((fix go (ps : list (string * JSON)) : Forall (λ kv, P kv.2) ps :=
                  match ps with
                  | [] => Forall_nil_2 _
                  | kv :: ps' =>
                      Forall_cons_2 (λ kv, P kv.2) kv ps'
                        (JSON_nested_ind kv.2) (go ps')
                  end) ps)
  end.
End JSON_induction.

(** Own-property lookup and assignment on the property list of an
    object.  Assignment to an existing key keeps the key's position,
    assignment to a new key appends it (insertion order). *)
Fixpoint obj_get (k : string) (ps : list (string * JSON)) : option JSON :=
  match ps with
  | [] => None
  | (k', v) :: ps' => if String.eqb k k' then Some v else obj_get k ps'
  end.

Fixpoint obj_set (k : string) (v : JSON) (ps : list (string * JSON))
  : list (string * JSON) :=
  match ps with
  | [] => [(k, v)]
  | (k', v') :: ps' =>
      if String.eqb k k' then (k', v) :: ps' else (k', v') :: obj_set k v ps'
  end.

(** Keys are pairwise distinct in every object of the value. *)
Fixpoint nodup_keys (ks : list string) : bool :=
  match ks with
  | [] => true
  | k :: ks' => negb (existsb (String.eqb k) ks') && nodup_keys ks'
  end.

Fixpoint wf_json (v : JSON) : bool :=
  match v with
  | JArr l => forallb wf_json l
  | JObj ps => nodup_keys (map fst ps) && forallb (λ kv, wf_json kv.2) ps
  | _ => true
  end.

(** ** JSON text

    [emit] writes a value as [JSON.stringify] does. *)

Module Text.

Definition dquote : ascii := "034"%char.
Definition backslash : ascii := "092"%char.

Definition hex_digit (n : N) : ascii :=
  if (n <? 10)%N then ascii_of_N (48 + n) else ascii_of_N (87 + n).

(** QuoteJSONString on one code unit. *)
Definition quote_char (c : ascii) : list ascii :=
  let n := N_of_ascii c in
  if (n =? 34)%N then [backslash; dquote]
  else if (n =? 92)%N then [backslash; backslash]
  else if (n =? 8)%N then [backslash; "b"%char]
  else if (n =? 12)%N then [backslash; "f"%char]
  else if (n =? 10)%N then [backslash; "n"%char]
  else if (n =? 13)%N then [backslash; "r"%char]
  else if (n =? 9)%N then [backslash; "t"%char]
  else if (n <? 32)%N then
    [backslash; "u"%char; "0"%char; "0"%char;
     hex_digit (n / 16); hex_digit (n mod 16)]
  else [c].

Fixpoint quote_chars (s : string) : list ascii :=
  match s with
  | EmptyString => []
  | String c s' => quote_char c ++ quote_chars s'
  end.

Definition emit_string (s : string) : list ascii :=
  dquote :: quote_chars s ++ [dquote].

Fixpoint emit_uint (u : uint) : list ascii :=
  match u with
  | Nil => []
  | D0 u' => "0"%char :: emit_uint u'
  | D1 u' => "1"%char :: emit_uint u'
  | D2 u' => "2"%char :: emit_uint u'
  | D3 u' => "3"%char :: emit_uint u'
  | D4 u' => "4"%char :: emit_uint u'
  | D5 u' => "5"%char :: emit_uint u'
  | D6 u' => "6"%char :: emit_uint u'
  | D7 u' => "7"%char :: emit_uint u'
  | D8 u' => "8"%char :: emit_uint u'
  | D9 u' => "9"%char :: emit_uint u'
  end.

(** Number::toString on an integer: decimal digits, a leading minus
    sign for negative numbers. *)
Definition emit_number (n : Z) : list ascii :=
  match Z.to_int n with
  | Pos u => emit_uint u
  | Neg u => "-"%char :: emit_uint u
  end.

Fixpoint join (sep : ascii) (parts : list (list ascii)) : list ascii :=
  match parts with
  | [] => []
  | p :: ps =>
      match ps with
      | [] => p
      | _ :: _ => p ++ sep :: join sep ps
      end
  end.

Fixpoint emit (v : JSON) : list ascii :=
  match v with
  | JNull => list_ascii_of_string "null"
  | JBool true => list_ascii_of_string "true"
  | JBool false => list_ascii_of_string "false"
  | JNum n => emit_number n
  | JStr s => emit_string s
  | JArr l => "["%char :: join ","%char (map emit l) ++ ["]"%char]
  | JObj ps =>
      "{"%char ::
        join ","%char
          (map (λ kv, emit_string kv.1 ++ ":"%char :: emit kv.2) ps)
        ++ ["}"%char]
  end.

(** *** [JSON.parse]: a recursive-descent reader of JSON text *)

Definition is_ws (c : ascii) : bool :=
  let n := N_of_ascii c in
  ((n =? 32) || (n =? 9) || (n =? 10) || (n =? 13))%N.

Fixpoint skip_ws (s : list ascii) : list ascii :=
  match s with
  | [] => []
  | c :: r => if is_ws c then skip_ws r else s
  end.

Definition digit_of (c : ascii) : option (uint → uint) :=
  match N_of_ascii c with
  | 48 => Some D0 | 49 => Some D1 | 50 => Some D2 | 51 => Some D3
  | 52 => Some D4 | 53 => Some D5 | 54 => Some D6 | 55 => Some D7
  | 56 => Some D8 | 57 => Some D9
  | _ => None
  end%N.

Fixpoint take_digits (s : list ascii) : uint * list ascii :=
  match s with
  | [] => (Nil, [])
  | c :: r =>
      match digit_of c with
      | Some d => let '(u, r') := take_digits r in (d u, r')
      | None => (Nil, s)
      end
  end.

(** A fraction or an exponent follows: the number is not an integer
    and lies outside the modelled values. *)
Definition continues_number (s : list ascii) : bool :=
  match s with
  | [] => false
  | c :: _ => Ascii.eqb c "."%char || Ascii.eqb c "e"%char || Ascii.eqb c "E"%char
  end.

Definition starts_number (c : ascii) : bool :=
  Ascii.eqb c "-"%char || bool_decide (is_Some (digit_of c)).

Definition split_sign (s : list ascii) : bool * list ascii :=
  match s with
  | c :: r => if Ascii.eqb c "-"%char then (true, r) else (false, s)
  | [] => (false, s)
  end.

(** JSON numbers have no superfluous leading zero. *)
Definition leading_zero (u : uint) : bool :=
  match u with
  | D0 Nil => false
  | D0 _ => true
  | _ => false
  end.

Definition parse_number (s : list ascii) : option (JSON * list ascii) :=
  let '(neg, s1) := split_sign s in
  let '(u, r) := take_digits s1 in
  match u with
  | Nil => None
  | _ =>
      if leading_zero u || continues_number r then None
      else Some (JNum (Z.of_int (if neg : bool then Neg u else Pos u)), r)
  end.

Definition hex_val (c : ascii) : option N :=
  let n := N_of_ascii c in
  if ((48 <=? n) && (n <=? 57))%N then Some (n - 48)%N
  else if ((97 <=? n) && (n <=? 102))%N then Some (n - 87)%N
  else if ((65 <=? n) && (n <=? 70))%N then Some (n - 55)%N
  else None.

Definition hex4 (h1 h2 h3 h4 : ascii) : option N :=
  a ← hex_val h1; b ← hex_val h2; c ← hex_val h3; d ← hex_val h4;
  Some (((a * 16 + b) * 16 + c) * 16 + d)%N.

(** The character a two-character escape stands for. *)
Definition unescape (e : ascii) : option ascii :=
  if Ascii.eqb e dquote then Some dquote
  else if Ascii.eqb e backslash then Some backslash
  else if Ascii.eqb e "/"%char then Some "/"%char
  else if Ascii.eqb e "b"%char then Some "008"%char
  else if Ascii.eqb e "f"%char then Some "012"%char
  else if Ascii.eqb e "n"%char then Some "010"%char
  else if Ascii.eqb e "r"%char then Some "013"%char
  else if Ascii.eqb e "t"%char then Some "009"%char
  else None.

Definition push_char (c : ascii) (r : option (string * list ascii))
  : option (string * list ascii) :=
  '(str, rest) ← r; Some (String c str, rest).

(** The characters of a string literal after its opening quote, up to
    and including the closing quote. *)
Fixpoint parse_chars (s : list ascii) : option (string * list ascii) :=
  match s with
  | [] => None
  | c :: r =>
      if Ascii.eqb c dquote then Some (EmptyString, r)
      else if Ascii.eqb c backslash then
        match r with
        | [] => None
        | e :: r1 =>
            match unescape e with
            | Some c' => push_char c' (parse_chars r1)
            | None =>
                if Ascii.eqb e "u"%char then
                  match r1 with
                  | h1 :: h2 :: h3 :: h4 :: r2 =>
                      match hex4 h1 h2 h3 h4 with
                      | Some n =>
                          if (n <? 256)%N
                          then push_char (ascii_of_N n) (parse_chars r2)
                          else None
                      | None => None
                      end
                  | _ => None
                  end
                else None
            end
        end
      else if (N_of_ascii c <? 32)%N then None
      else push_char c (parse_chars r)
  end.

Fixpoint strip_prefix (p s : list ascii) : option (list ascii) :=
  match p, s with
  | [], _ => Some s
  | a :: p', b :: s' => if Ascii.eqb a b then strip_prefix p' s' else None
  | _ :: _, [] => None
  end.

Definition parse_literal (lit : string) (v : JSON) (s : list ascii)
  : option (JSON * list ascii) :=
  r ← strip_prefix (list_ascii_of_string lit) s; Some (v, r).

Fixpoint parse_value (fuel : nat) (s : list ascii)
  : option (JSON * list ascii) :=
  match fuel with
  | O => None
  | S fuel' =>
      match skip_ws s with
      | [] => None
      | c :: r =>
          if starts_number c then parse_number (c :: r)
          else if Ascii.eqb c dquote then
            '(str, rest) ← parse_chars r; Some (JStr str, rest)
          else if Ascii.eqb c "["%char then
            match skip_ws r with
            | [] => None
            | c' :: r' =>
                if Ascii.eqb c' "]"%char then Some (JArr [], r')
                else '(vs, rest) ← parse_elements fuel' (c' :: r');
                     Some (JArr vs, rest)
            end
          else if Ascii.eqb c "{"%char then
            match skip_ws r with
            | [] => None
            | c' :: r' =>
                if Ascii.eqb c' "}"%char then Some (JObj [], r')
                else '(ps, rest) ← parse_members fuel' (c' :: r');
                     Some (JObj (foldl (λ acc kv, obj_set kv.1 kv.2 acc) [] ps),
                           rest)
            end
          else if Ascii.eqb c "n"%char then parse_literal "ull" JNull r
          else if Ascii.eqb c "t"%char then parse_literal "rue" (JBool true) r
          else if Ascii.eqb c "f"%char then parse_literal "alse" (JBool false) r
          else None
      end
  end
with parse_elements (fuel : nat) (s : list ascii)
  : option (list JSON * list ascii) :=
  match fuel with
  | O => None
  | S fuel' =>
      '(v, r) ← parse_value fuel' s;
      match skip_ws r with
      | [] => None
      | c :: r' =>
          if Ascii.eqb c ","%char then
            '(vs, rest) ← parse_elements fuel' r'; Some (v :: vs, rest)
          else if Ascii.eqb c "]"%char then Some ([v], r')
          else None
      end
  end
with parse_members (fuel : nat) (s : list ascii)
  : option (list (string * JSON) * list ascii) :=
  match fuel with
  | O => None
  | S fuel' =>
      match skip_ws s with
      | [] => None
      | c :: r =>
          if Ascii.eqb c dquote then
            '(k, r1) ← parse_chars r;
            match skip_ws r1 with
            | [] => None
            | c1 :: r2 =>
                if Ascii.eqb c1 ":"%char then
                  '(v, r3) ← parse_value fuel' r2;
                  match skip_ws r3 with
                  | [] => None
                  | c3 :: r4 =>
                      if Ascii.eqb c3 ","%char then
                        '(ps, rest) ← parse_members fuel' r4;
                        Some ((k, v) :: ps, rest)
                      else if Ascii.eqb c3 "}"%char then Some ([(k, v)], r4)
                      else None
                  end
                else None
            end
          else None
      end
  end.

(** A whole text: one value, then only white space.  Every bracket,
    brace and comma of the text costs at most two units of fuel. *)
Definition parse (s : list ascii) : option JSON :=
  '(v, r) ← parse_value (S (2 * length s)) s;
  match skip_ws r with
  | [] => Some v
  | _ :: _ => None
  end.

End Text.

(** [n.toString()] for an integer [n], as in [Date.now().toString()]. *)
Definition Number_toString (n : Z) : string :=
  string_of_list_ascii (Text.emit_number n).

(** The text model of the platform's [JSON.stringify(v)] (no indentation
    argument, as the program calls it) and [JSON.parse(text)], where
    [None] stands for the [SyntaxError] it throws. *)
Module JSONText.
Definition stringify (v : JSON) : string :=
  string_of_list_ascii (Text.emit v).
Definition parse (text : string) : option JSON :=
  Text.parse (list_ascii_of_string text).
End JSONText.

(** ** Domain types of [index.tsx] *)

Record GrammarPoint := {
  pattern : string;
  explanation : string;
}.

Record VocabularyItem := {
  word : string;
  reading : string;
  meaning : string;
  partOfSpeech : string;
}.

Record AnalysisResult := {
  id : string;
  timestamp : Z;
  original : string;
  translation : string;
  language : string;
  grammarPoints : list GrammarPoint;
  vocabulary : list VocabularyItem;
}.

(** The object the response schema of [analyzeSentence] describes. *)
Record AnalysisPayload := {
  payload_language : string;
  payload_translation : string;
  payload_grammarPoints : list GrammarPoint;
  payload_vocabulary : list VocabularyItem;
}.

Module QaResult.
Record t := mk {
  id : string;
  timestamp : Z;
  question : string;
  answer : string;
  relatedSentence : option JSON;   (* [None] is [undefined] *)
}.
End QaResult.

(** The JavaScript objects of these types. *)
Definition js_of_GrammarPoint (g : GrammarPoint) : JSON :=
  JObj [("pattern", JStr (pattern g)); ("explanation", JStr (explanation g))].

Definition js_of_VocabularyItem (v : VocabularyItem) : JSON :=
  JObj [("word", JStr (word v)); ("reading", JStr (reading v));
        ("meaning", JStr (meaning v)); ("partOfSpeech", JStr (partOfSpeech v))].

Definition js_of_AnalysisPayload (p : AnalysisPayload) : JSON :=
  JObj [("language", JStr (payload_language p));
        ("translation", JStr (payload_translation p));
        ("grammarPoints", JArr (map js_of_GrammarPoint (payload_grammarPoints p)));
        ("vocabulary", JArr (map js_of_VocabularyItem (payload_vocabulary p)))].

Definition js_of_AnalysisResult (r : AnalysisResult) : JSON :=
  JObj [("language", JStr (language r));
        ("translation", JStr (translation r));
        ("grammarPoints", JArr (map js_of_GrammarPoint (grammarPoints r)));
        ("vocabulary", JArr (map js_of_VocabularyItem (vocabulary r)));
        ("id", JStr (id r));
        ("timestamp", JNum (timestamp r));
        ("original", JStr (original r))].

(** ** Exceptions and the platform *)

Inductive exn : Type :=
| Error (message : string)
| SyntaxError                  (* thrown by [JSON.parse] *)
| TypeError                    (* a property of [null] is read *)
| ApiError (reason : string).  (* [generateContent] rejects *)

(** A computation that returns or throws. *)
Definition result (A : Type) : Type := (exn + A)%type.

Definition throw {A} (e : exn) : result A := inl e.
Definition ret {A} (a : A) : result A := inr a.

Definition bind {A B} (m : result A) (k : A → result B) : result B :=
  match m with
  | inl e => inl e
  | inr a => k a
  end.

Notation "'let*' x := m 'in' k" := (bind m (λ x, k))
  (at level 10, x name, m at level 100, k at level 200).

(** What the program takes from its host: the two [JSON] functions and
    the build-time [process.env.API_KEY]. *)
Class Platform := {
  JSON_parse : string → option JSON;
  JSON_stringify : JSON → string;
  API_KEY : option string;
}.

(** The browser with the text model of JSON. *)
Definition browser (key : option string) : Platform :=
  {| JSON_parse := JSONText.parse;
     JSON_stringify := JSONText.stringify;
     API_KEY := key |}.

(** JavaScript truthiness of an optional string: [undefined] and the
    empty string are falsy. *)
Definition truthy (s : option string) : option string :=
  match s with
  | Some (String c r) => Some (String c r)
  | _ => None
  end.

(** Reading a property whose name is neither an index nor [length]:
    own-property lookup on an object, [undefined] on the other values,
    a [TypeError] on [null]. *)
Definition get_prop (v : JSON) (k : string) : result (option JSON) :=
  match v with
  | JNull => throw TypeError
  | JObj ps => ret (obj_get k ps)
  | _ => ret None
  end.

(** The own enumerable properties an object spread [{...v}] copies. *)
Definition spread_props (v : JSON) : list (string * JSON) :=
  match v with
  | JObj ps => ps
  | JArr l => imap (λ i x, (Number_toString (Z.of_nat i), x)) l
  | JStr s =>
      imap (λ i c, (Number_toString (Z.of_nat i), JStr (String c EmptyString)))
           (list_ascii_of_string s)
  | _ => []
  end.

(** [x !== s] for a string [s]. *)
Definition strict_neq_string (x : option JSON) (s : string) : bool :=
  match x with
  | Some (JStr s') => negb (String.eqb s' s)
  | _ => true
  end.

(** [Array.prototype.filter] with a callback that may throw. *)
Fixpoint array_filter (f : JSON → result bool) (l : list JSON)
  : result (list JSON) :=
  match l with
  | [] => ret []
  | x :: l' =>
      let* keep := f x in
      let* rest := array_filter f l' in
      ret (if keep : bool then x :: rest else rest)
  end.

(** ** API service *)

Section Service.
Context `{Platform}.

Definition getAI : result unit :=
  match truthy API_KEY with
  | None => throw (Error "API Key not found")
  | Some _ => ret tt
  end.

(** [response] is the outcome of the call [ai.models.generateContent]
    made with the prompt built from [sentence]: the call rejects, or it
    resolves to a response whose [text] may be undefined.  The prompt
    text itself is not part of the model. *)
Definition analyzeSentence (sentence : string)
    (response : result (option string)) : result JSON :=
  let* ai := getAI in
  let* text := response in
  match truthy text with
  | None => throw (Error "No response from Gemini")
  | Some text =>
      match JSON_parse text with
      | Some v => ret v
      | None => throw SyntaxError
      end
  end.

Definition askTutor (question : string) (context : option JSON)
    (response : result (option string)) : result string :=
  let* ai := getAI in
  let* text := response in
  ret (match truthy text with
       | Some text => text
       | None => "I couldn't generate an answer."
       end).

End Service.

(** ** The [App] component *)

Record World := {
  (* React state *)
  activeTab : string;
  isAnalyzing : bool;
  history : list JSON;
  qaResult : option QaResult.t;
  (* the browser *)
  localStorage : gmap string string;
  console : list (option string * exn);
  alerts : list string;
}.

Definition setIsAnalyzing (b : bool) (w : World) : World :=
  {| activeTab := activeTab w; isAnalyzing := b; history := history w;
     qaResult := qaResult w; localStorage := localStorage w;
     console := console w; alerts := alerts w |}.

Definition setHistory (f : list JSON → list JSON) (w : World) : World :=
  {| activeTab := activeTab w; isAnalyzing := isAnalyzing w;
     history := f (history w);
     qaResult := qaResult w; localStorage := localStorage w;
     console := console w; alerts := alerts w |}.

Definition setQaResult (q : option QaResult.t) (w : World) : World :=
  {| activeTab := activeTab w; isAnalyzing := isAnalyzing w;
     history := history w;
     qaResult := q; localStorage := localStorage w;
     console := console w; alerts := alerts w |}.

Definition setItem (k v : string) (w : World) : World :=
  {| activeTab := activeTab w; isAnalyzing := isAnalyzing w;
     history := history w;
     qaResult := qaResult w; localStorage := <[k := v]> (localStorage w);
     console := console w; alerts := alerts w |}.

Definition console_error (label : option string) (e : exn) (w : World) : World :=
  {| activeTab := activeTab w; isAnalyzing := isAnalyzing w;
     history := history w;
     qaResult := qaResult w; localStorage := localStorage w;
     console := console w ++ [(label, e)]; alerts := alerts w |}.

Definition alert (msg : string) (w : World) : World :=
  {| activeTab := activeTab w; isAnalyzing := isAnalyzing w;
     history := history w;
     qaResult := qaResult w; localStorage := localStorage w;
     console := console w; alerts := alerts w ++ [msg] |}.

(** The state of the first render, over the given storage. *)
Definition mount (storage : gmap string string) : World :=
  {| activeTab := "analyze"; isAnalyzing := false; history := [];
     qaResult := None; localStorage := storage;
     console := []; alerts := [] |}.

(** How mounting ends.  [Adopted v w]: the stored text parsed to [v],
    which is not an array; [history] is set to [v] all the same, and the
    rest of the state is that of [w].  What the components do with such
    a history is outside this development. *)
Inductive mount_outcome : Type :=
| Mounted (w : World)
| Adopted (v : JSON) (w : World).

Section App.
Context `{Platform}.

(** The effect "Load history from local storage": the state update it
    queues, if any. *)
Definition loadEffect (w : World) : World * option JSON :=
  match truthy (localStorage w !! "lingolog_history") with
  | Some saved =>
      match JSON_parse saved with
      | Some v => (w, Some v)
      | None =>
          (console_error (Some "Failed to parse history") SyntaxError w, None)
      end
  | None => (w, None)
  end.

(** The effect "Save history", run after a render in which [history]
    is a new value. *)
Definition saveEffect (w : World) : World :=
  setItem "lingolog_history" (JSON_stringify (JArr (history w))) w.

(** Mounting [App]: both effects run after the first render, in which
    [history] is still the initial [[]]; a queued update causes a second
    render, after which the save effect runs again.  The parsed value is
    adopted unchecked.  These are the state updates and the effects: the
    renders between them are taken to complete.  [analyze_tab_reads]
    below says when the render after the update throws instead, in which
    case the second save effect never runs. *)
Definition startup (storage : gmap string string) : mount_outcome :=
  let '(w1, update) := loadEffect (mount storage) in
  let w2 := saveEffect w1 in
  match update with
  | None => Mounted w2
  | Some (JArr l) => Mounted (saveEffect (setHistory (λ _, l) w2))
  | Some v => Adopted v w2
  end.

(** [{ ...result, id: Date.now().toString(), timestamp: Date.now(),
      original: text }] *)
Definition fullResult (result : JSON) (now_id now_ts : Z) (text : string)
  : JSON :=
  JObj (obj_set "original" (JStr text)
          (obj_set "timestamp" (JNum now_ts)
             (obj_set "id" (JStr (Number_toString now_id))
                (spread_props result)))).

(** [now_id] and [now_ts] are the two readings of [Date.now()]. *)
Definition handleAnalyze (text : string) (response : result (option string))
    (now_id now_ts : Z) (w : World) : World :=
  let w := setIsAnalyzing true w in
  let w :=
    match analyzeSentence text response with
    | inr result =>
        saveEffect
          (setHistory (λ prev, fullResult result now_id now_ts text :: prev) w)
    | inl error =>
        alert "Sorry, I couldn't analyze that sentence. Please check your API key or internet connection."
          (console_error None error w)
    end in
  setIsAnalyzing false w.

(** [history.length > 0 ? history[0].original : undefined] *)
Definition context_of (history : list JSON) : result (option JSON) :=
  match history with
  | [] => ret None
  | item :: _ => get_prop item "original"
  end.

Definition handleAskTutor (question : string)
    (response : result (option string)) (now_id now_ts : Z) (w : World)
  : World :=
  let w := setIsAnalyzing true w in
  let w :=
    match (let* context := context_of (history w) in
           let* answer := askTutor question context response in
           ret (context, answer)) with
    | inr (context, answer) =>
        setQaResult
          (Some (QaResult.mk (Number_toString now_id) now_ts question answer
                   context)) w
    | inl error =>
        alert "Sorry, I couldn't get an answer right now."
          (console_error None error w)
    end in
  setIsAnalyzing false w.

(** [confirmed] is the user's answer to the [confirm] dialog.  The
    state updater throws when it meets a [null] item; nothing catches
    that. *)
Definition handleDelete (id : string) (confirmed : bool) (w : World)
  : result World :=
  if confirmed then
    let* kept :=
      array_filter
        (λ item, let* item_id := get_prop item "id" in
                 ret (strict_neq_string item_id id))
        (history w) in
    ret (saveEffect (setHistory (λ _, kept) w))
  else ret w.

(** The value a call [handleDelete(id)] evaluates to.  Neither path of
    the body has a [return] statement, so it is [undefined] ([None]);
    [NotebookTab] takes the handler as [onDelete: (id: string) => void]. *)
Definition handleDelete_value (id : string) (confirmed : bool)
  : option JSON :=
  if confirmed then None else None.

End App.

(** ** The [DictionaryTab] component *)

(** The two locale-dependent [String.prototype] methods the component
    calls. [localeCompare] returns a negative number, zero or a positive
    number. *)
Class Locale := {
  localeCompare : string → string → Z;
  toLowerCase : string → string;
}.

(** [s.includes(t)]: [t] occurs in [s] as a substring. *)
Fixpoint includes (s t : string) : bool :=
  String.prefix t s ||
  match s with
  | EmptyString => false
  | String _ s' => includes s' t
  end.

(** [{ ...v, language: item.language }] *)
Record TaggedVocabulary := {
  item : VocabularyItem;
  tag_language : string;
}.

Definition flatten_vocabulary (items : list AnalysisResult)
  : list TaggedVocabulary :=
  flat_map
    (λ it, map (λ v, {| item := v; tag_language := language it |})
               (vocabulary it))
    items.

(** The [reduce] callback: push [curr] unless its word is already in
    the accumulator. *)
Definition dedupe_step (acc : list TaggedVocabulary) (curr : TaggedVocabulary)
  : list TaggedVocabulary :=
  if existsb (λ v, String.eqb (word (item v)) (word (item curr))) acc
  then acc
  else acc ++ [curr].

Section DictionaryTab.
Context `{Locale}.

(** The order the comparator [(a, b) => a.word.localeCompare(b.word)]
    asks for: [a] may stand before [b]. *)
Definition by_word (a b : TaggedVocabulary) : Prop :=
  localeCompare (word (item a)) (word (item b)) ≤ 0.

#[global] Instance by_word_dec a b : Decision (by_word a b) :=
  Z_le_dec (localeCompare (word (item a)) (word (item b))) 0.

(** [Array.prototype.sort] is taken to be a merge sort. *)
Definition allVocab (items : list AnalysisResult) : list TaggedVocabulary :=
  merge_sort by_word (foldl dedupe_step [] (flatten_vocabulary items)).

Definition matches (searchTerm : string) (v : TaggedVocabulary) : bool :=
  includes (toLowerCase (word (item v))) (toLowerCase searchTerm)
  || includes (toLowerCase (meaning (item v))) (toLowerCase searchTerm)
  || includes (toLowerCase (reading (item v))) (toLowerCase searchTerm).

Definition filteredVocab (searchTerm : string) (all : list TaggedVocabulary)
  : list TaggedVocabulary :=
  List.filter (matches searchTerm) all.

End DictionaryTab.

(** A locale for examples: strings compared by their code units, ASCII
    letters lowered. *)
Definition ascii_lower (c : ascii) : ascii :=
  let n := N_of_ascii c in
  if ((65 <=? n) && (n <=? 90))%N then ascii_of_N (n + 32) else c.

Fixpoint lower (s : string) : string :=
  match s with
  | EmptyString => EmptyString
  | String c s' => String (ascii_lower c) (lower s')
  end.

Definition compare_code_units (a b : string) : Z :=
  match String.compare a b with
  | Lt => -1
  | Eq => 0
  | Gt => 1
  end.

Definition code_unit_locale : Locale :=
  {| localeCompare := compare_code_units; toLowerCase := lower |}.


(** ** [speak]: the locale of an utterance *)

Section Speak.
Context `{Locale}.

(** The "simple mapping" of [speak] from a language name to the [lang]
    of the utterance; [None] is an [undefined] argument. *)
Definition speech_lang (languageName : option string) : string :=
  let l := toLowerCase (match truthy languageName with
                        | Some name => name
                        | None => EmptyString
                        end) in
  if includes l "japanese" then "ja-JP"
  else if includes l "spanish" then "es-ES"
  else if includes l "french" then "fr-FR"
  else if includes l "german" then "de-DE"
  else if includes l "chinese" then "zh-CN"
  else if includes l "korean" then "ko-KR"
  else if includes l "italian" then "it-IT"
  else if includes l "russian" then "ru-RU"
  else if includes l "portuguese" then "pt-BR"
  else "en-US".

End Speak.

(** ** [MarkdownText] *)

(** What a line of the text becomes: a bullet item, or a paragraph of
    plain and bold runs. *)
Inductive inline : Type :=
| Plain (s : string)
| Strong (s : string).

Inductive block : Type :=
| Bullet (s : string)
| Paragraph (parts : list inline).

Definition newline : ascii := "010"%char.
Definition star : ascii := "*"%char.

(** [s.split(sep)] for a separator of one character. *)
Fixpoint split_char (sep : ascii) (s : string) : list string :=
  match s with
  | EmptyString => [EmptyString]
  | String c r =>
      if Ascii.eqb c sep then EmptyString :: split_char sep r
      else match split_char sep r with
           | h :: t => String c h :: t
           | [] => [String c EmptyString]
           end
  end.

(** [s.startsWith(p)], [s.endsWith(p)], [s.substring(n)] and
    [s.slice(start, end)] with its negative indices. *)
Definition startsWith (p s : string) : bool := String.prefix p s.

Definition endsWith (p s : string) : bool :=
  (String.length p <=? String.length s)%nat
  && String.eqb
       (String.substring (String.length s - String.length p)
          (String.length p) s) p.

Definition substring_from (n : nat) (s : string) : string :=
  String.substring n (String.length s - n) s.

Definition slice (start fin : Z) (s : string) : string :=
  let len := Z.of_nat (String.length s) in
  let from := if start <? 0 then Z.max (len + start) 0 else Z.min start len in
  let to := if fin <? 0 then Z.max (len + fin) 0 else Z.min fin len in
  String.substring (Z.to_nat from) (Z.to_nat (to - from)) s.

(** The dot of a regular expression matches no line terminator; among
    the 8-bit code units these are line feed and carriage return. *)
Definition is_line_terminator (c : ascii) : bool :=
  Ascii.eqb c "010"%char || Ascii.eqb c "013"%char.

(** A match of [\*\*.*?\*\*] after its opening stars: the characters up
    to the nearest closing stars, and what follows those. *)
Fixpoint close_bold (s : string) : option (string * string) :=
  match s with
  | EmptyString => None
  | String c r =>
      match r with
      | EmptyString => None
      | String c' rest =>
          if Ascii.eqb c star && Ascii.eqb c' star then Some (EmptyString, rest)
          else if is_line_terminator c then None
          else match close_bold r with
               | Some (inner, rest') => Some (String c inner, rest')
               | None => None
               end
      end
  end.

(** A match of [\*\*.*?\*\*] at the start of [s]: the text between the
    stars, and what follows the match. *)
Definition match_bold (s : string) : option (string * string) :=
  match s with
  | String c (String c' r) =>
      if Ascii.eqb c star && Ascii.eqb c' star then close_bold r else None
  | _ => None
  end.

(** [line.split] on the regular expression [\*\*.*?\*\*] in a capturing
    group: the pieces between the matches, each match between its
    neighbours.  [cur] is the piece being read, in
    reverse; every step takes a character, so the length of the line is
    fuel enough. *)
Fixpoint split_bold_from (fuel : nat) (cur s : string) : list string :=
  match fuel with
  | O => [String.rev cur +:+ s]
  | S fuel' =>
      match s with
      | EmptyString => [String.rev cur]
      | String c r =>
          match match_bold s with
          | Some (inner, rest) =>
              String.rev cur
                :: (String star (String star inner)
                      +:+ String star (String star EmptyString))
                :: split_bold_from fuel' EmptyString rest
          | None => split_bold_from fuel' (String c cur) r
          end
      end
  end.

Definition split_bold (line : string) : list string :=
  split_bold_from (String.length line) EmptyString line.

Definition render_part (part : string) : inline :=
  if startsWith "**" part && endsWith "**" part
  then Strong (slice 2 (-2) part)
  else Plain part.

Definition render_line (line : string) : block :=
  if startsWith "- " line || startsWith "* " line
  then Bullet (substring_from 2 line)
  else Paragraph (map render_part (split_bold line)).

Definition MarkdownText (text : string) : list block :=
  map render_line (split_char newline text).

(** ** [AnalyzeTab] *)

Inductive mode : Type := analysis | qa.

(** White space and line terminators among the 8-bit code units. *)
Definition js_whitespace (c : ascii) : bool :=
  let n := N_of_ascii c in
  ((9 <=? n) && (n <=? 13) || (n =? 32) || (n =? 160))%N.

Fixpoint trimStart (s : string) : string :=
  match s with
  | EmptyString => EmptyString
  | String c r => if js_whitespace c then trimStart r else s
  end.

Fixpoint trimEnd (s : string) : string :=
  match s with
  | EmptyString => EmptyString
  | String c r =>
      match trimEnd r with
      | EmptyString => if js_whitespace c then EmptyString
                       else String c EmptyString
      | r' => String c r'
      end
  end.

Definition trim (s : string) : string := trimEnd (trimStart s).

(** JavaScript truthiness of a value of the JSON fragment. *)
Definition js_truthy (v : JSON) : bool :=
  match v with
  | JNull => false
  | JBool b => b
  | JNum n => negb (n =? 0)
  | JStr s => negb (String.eqb s EmptyString)
  | JArr _ | JObj _ => true
  end.

(** [t > x] for a number [t]: [x] is converted to a number, and nothing
    is greater than [NaN], which [undefined] converts to.  The
    conversion of strings, arrays and objects is not followed ([None]). *)
Definition number_gt (t : Z) (x : option JSON) : option bool :=
  match x with
  | None => Some false
  | Some JNull => Some (0 <? t)
  | Some (JBool b) => Some ((if b then 1 else 0) <? t)
  | Some (JNum n) => Some (n <? t)
  | Some (JStr _ | JArr _ | JObj _) => None
  end.

(** [history.length > 0 ? history[0] : null], as [App] passes it. *)
Definition lastResult (w : World) : option JSON :=
  match history w with
  | item :: _ => Some item
  | [] => None
  end.

(** [qaResult && (!lastResult || qaResult.timestamp >
    lastResult.timestamp)], as a boolean. *)
Definition showQa (w : World) : option bool :=
  match qaResult w with
  | None => Some false
  | Some q =>
      match lastResult w with
      | None => Some true
      | Some last =>
          if js_truthy last then
            match get_prop last "timestamp" with
            | inr x => number_gt (QaResult.timestamp q) x
            | inl _ => None
            end
          else Some true
      end
  end.

(** The card below the input form. *)
Inductive card : Type :=
| TutorAnswer (q : QaResult.t)
| Analysis (last : JSON)
| NoCard.

Definition display (w : World) : option card :=
  match showQa w with
  | None => None
  | Some true =>
      Some (match qaResult w with
            | Some q => TutorAnswer q
            | None => NoCard
            end)
  | Some false =>
      Some (match lastResult w with
            | Some last => if js_truthy last then Analysis last else NoCard
            | None => NoCard
            end)
  end.

(** [v.map(f)] for a callback that only reads its argument: only an
    array has a [map] to call, so on [undefined] and on every other
    value of the JSON fragment the call throws a [TypeError]. *)
Fixpoint for_each (f : JSON → result unit) (l : list JSON) : result unit :=
  match l with
  | [] => ret tt
  | x :: l' => let* _ := f x in for_each f l'
  end.

Definition array_map (v : option JSON) (f : JSON → result unit)
  : result unit :=
  match v with
  | Some (JArr l) => for_each f l
  | _ => throw TypeError
  end.

(** The property reads and the calls the analysis card makes of
    [lastResult], in the order of its JSX.  What React does with the
    values read is not followed. *)
Definition card_reads (lastResult : JSON) : result unit :=
  let* _ := get_prop lastResult "language" in
  let* _ := get_prop lastResult "original" in
  let* _ := get_prop lastResult "translation" in
  let* grammarPoints := get_prop lastResult "grammarPoints" in
  let* _ := array_map grammarPoints
              (λ point,
                 let* _ := get_prop point "pattern" in
                 let* _ := get_prop point "explanation" in
                 ret tt) in
  let* vocabulary := get_prop lastResult "vocabulary" in
  array_map vocabulary
    (λ vocab,
       let* _ := get_prop vocab "word" in
       let* _ := get_prop vocab "reading" in
       let* _ := get_prop vocab "meaning" in
       let* _ := get_prop vocab "partOfSpeech" in
       ret tt).

(** What a render of the tab in analysis mode reads of the history: the
    reads of the analysis card, when that is the card on display.  A
    [TypeError] here is thrown by the render itself; nothing catches
    it. *)
Definition analyze_tab_reads (w : World) : option (result unit) :=
  match display w with
  | None => None
  | Some (Analysis last) => Some (card_reads last)
  | Some _ => Some (ret tt)
  end.

Section AnalyzeTab.
Context `{Platform}.

(** [input] and [mode] are the state of the tab; the rest is what the
    handler of [App] takes. *)
Definition handleSubmit (input : string) (m : mode)
    (response : result (option string)) (now_id now_ts : Z) (w : World)
  : World :=
  match trim input with
  | EmptyString => w
  | _ =>
      match m with
      | analysis => handleAnalyze input response now_id now_ts w
      | qa => handleAskTutor input response now_id now_ts w
      end
  end.

(** The submit button's [disabled]. *)
Definition submit_disabled (input : string) (w : World) : bool :=
  String.eqb (trim input) EmptyString || isAnalyzing w.

End AnalyzeTab.

(** ** Notions used to state the properties *)

(** The item is an object whose [id] is the string [id]. *)
Definition has_id (id : string) (item : JSON) : bool :=
  match item with
  | JObj ps =>
      match obj_get "id" ps with
      | Some (JStr s) => String.eqb s id
      | _ => false
      end
  | _ => false
  end.

(** The string an item carries as its [id], if it carries one. *)
Definition id_of (item : JSON) : option string :=
  match item with
  | JObj ps =>
      match obj_get "id" ps with
      | Some (JStr s) => Some s
      | _ => None
      end
  | _ => None
  end.

(** The ids of a sequence of records; the store is uniquely keyed by id
    when no id is listed twice. *)
Definition ids (l : list JSON) : list string := omap id_of l.

(** The integer a decimal numeral denotes. *)
Definition read_decimal (s : string) : option Z :=
  match JSONText.parse s with
  | Some (JNum n) => Some n
  | _ => None
  end.

(** The number an item's [id] denotes. *)
Definition id_number (item : JSON) : option Z :=
  match item with
  | JObj ps =>
      match obj_get "id" ps with
      | Some (JStr s) => read_decimal s
      | _ => None
      end
  | _ => None
  end.

(** The record [handleAnalyze] builds from a payload of the declared
    shape. *)
Definition record_of (p : AnalysisPayload) (text : string) (now_id now_ts : Z)
  : AnalysisResult :=
  {| id := Number_toString now_id;
     timestamp := now_ts;
     original := text;
     translation := payload_translation p;
     language := payload_language p;
     grammarPoints := payload_grammarPoints p;
     vocabulary := payload_vocabulary p |}.

(** A record's vocabulary holds the word. *)
Definition holds_word (w : string) (it : AnalysisResult) : Prop :=
  w ∈ map word (vocabulary it).

(** [t] occurs in [s]. *)
Definition occurs_in (t s : string) : Prop :=
  ∃ a b, s = a +:+ t +:+ b.

(** The words of a list of entries. *)
Definition words (l : list TaggedVocabulary) : list string :=
  map (λ e, word (item e)) l.

(** The states [App] passes through: it is mounted over some storage,
    then the handlers run, one at a time. *)
Inductive reachable `{Platform} : World → Prop :=
| reach_startup storage w :
    startup storage = Mounted w → reachable w
| reach_analyze w text response now_id now_ts :
    reachable w → reachable (handleAnalyze text response now_id now_ts w)
| reach_ask w question response now_id now_ts :
    reachable w → reachable (handleAskTutor question response now_id now_ts w)
| reach_delete w id confirmed w' :
    reachable w → handleDelete id confirmed w = ret w' → reachable w'.

(** Sample data: scenario A of the specification. *)
Definition sample_payload : AnalysisPayload :=
  {| payload_language := "Japanese";
     payload_translation := "The cat is sleeping on the bed";
     payload_grammarPoints :=
       [{| pattern := "te-iru"; explanation := "ongoing action" |}];
     payload_vocabulary :=
       [{| word := "neko"; reading := "neko"; meaning := "cat";
           partOfSpeech := "noun" |};
        {| word := "neru"; reading := "neru"; meaning := "to sleep";
           partOfSpeech := "verb" |}] |}.

Definition sample_text : string :=
  Eval vm_compute in JSONText.stringify (js_of_AnalysisPayload sample_payload).


(** The application after its first mount, over an empty storage. *)
Definition first_visit : World :=
  saveEffect (H := browser (Some "key")) (mount ∅).

Definition sample_history : list AnalysisResult :=
  [ {| id := "1700000000250"; timestamp := 1700000000250;
       original := "neko ga iru"; translation := "There is a cat";
       language := "Japanese (newer)"; grammarPoints := [];
       vocabulary :=
         [{| word := "neko"; reading := "NEKO"; meaning := "a cat";
             partOfSpeech := "noun" |};
          {| word := "iru"; reading := "iru"; meaning := "to be";
             partOfSpeech := "verb" |}] |};
    record_of sample_payload "neko wa nete imasu" 1700000000000 1700000000001 ].


(** ** Notions used to state further properties *)

(** Only white space. *)
Definition blank (s : string) : bool :=
  forallb js_whitespace (list_ascii_of_string s).

(** The number of occurrences of a character. *)
Fixpoint count_char (c : ascii) (s : string) : nat :=
  match s with
  | EmptyString => 0%nat
  | String c' r => ((if Ascii.eqb c' c then 1 else 0) + count_char c r)%nat
  end.

(** The character does not occur in the string. *)
Definition free_of (c : ascii) (s : string) : Prop := count_char c s = 0%nat.

(** No line terminator occurs in the string. *)
Definition one_line (s : string) : Prop :=
  forallb (λ c, negb (is_line_terminator c)) (list_ascii_of_string s) = true.

(** The language names [speak] looks for, in the order it looks for
    them, each with its locale. *)
Definition speech_table : list (string * string) :=
  [("japanese", "ja-JP"); ("spanish", "es-ES"); ("french", "fr-FR");
   ("german", "de-DE"); ("chinese", "zh-CN"); ("korean", "ko-KR");
   ("italian", "it-IT"); ("russian", "ru-RU"); ("portuguese", "pt-BR")].

(** The code of the first entry of a table whose name occurs in [l]. *)
Fixpoint first_match (table : list (string * string)) (l fallback : string)
  : string :=
  match table with
  | [] => fallback
  | (name, code) :: table' =>
      if includes l name then code else first_match table' l fallback
  end.

(** A response whose properties clash with the ones [handleAnalyze]
    assigns. *)
Definition clashing_response : JSON :=
  JObj [("id", JStr "mine"); ("translation", JStr "a cat");
        ("original", JNum 7); ("timestamp", JNull)].

Definition clashing_text : string :=
  Eval vm_compute in JSONText.stringify clashing_response.

(** A stored snapshot with a [null] among the records. *)
Definition snapshot_with_null : string :=
  Eval vm_compute in
    JSONText.stringify
      (JArr [js_of_AnalysisResult
               (record_of sample_payload "neko" 1700000000000 1700000000000);
             JNull]).


(** The application after one analysis, and after a second one. *)
Definition one_record : World :=
  handleAnalyze (H := browser (Some "key")) "neko"
    (ret (Some sample_text)) 1700000000000 1700000000000 first_visit.

Definition two_records : World :=
  handleAnalyze (H := browser (Some "key")) "inu"
    (ret (Some sample_text)) 1700000000250 1700000000250 one_record.

(** A record of another shape: valid JSON without the two arrays. *)
Definition incompatible_record : JSON :=
  JObj [("id", JStr "1"); ("original", JStr "neko")].

Definition incompatible_snapshot : string :=
  Eval vm_compute in JSONText.stringify (JArr [incompatible_record]).

(** ** Shapes of JSON text, used to state what the reader does *)

Module TextShape.
Import Text.

(** What may follow a number in a text: not a digit, and nothing that
    would continue the number. *)
Definition number_end (rest : list ascii) : bool :=
  match rest with
  | [] => true
  | c :: _ => negb (bool_decide (is_Some (digit_of c)))
              && negb (continues_number rest)
  end.

(** Fuel that suffices to read a value back. *)
Fixpoint jsize (v : JSON) : nat :=
  match v with
  | JArr l => S (sum_list (map (λ x, S (jsize x)) l))
  | JObj ps => S (sum_list (map (λ kv, S (jsize kv.2)) ps))
  | _ => 1%nat
  end.

Definition value_start (c : ascii) : bool :=
  negb (is_ws c) && negb (Ascii.eqb c "]"%char) && negb (Ascii.eqb c "}"%char).

(** [v] is read back from its text, whatever admissible text follows. *)
Definition reads_back (v : JSON) : Prop :=
  ∀ fuel rest, (jsize v ≤ fuel)%nat → number_end rest = true →
    parse_value fuel (emit v ++ rest) = Some (v, rest).

Definition emit_member (kv : string * JSON) : list ascii :=
  emit_string kv.1 ++ ":"%char :: emit kv.2.

End TextShape.
(** ** Reading back what [JSON.stringify] wrote *)

Module TextFacts.
Import Text TextShape.

Lemma parse_chars_quote_char c tail :
  parse_chars (quote_char c ++ tail) = push_char c (parse_chars tail).
Proof.
  destruct c as [[] [] [] [] [] [] [] []]; reflexivity.
Qed.

Lemma parse_chars_quote_chars s rest :
  parse_chars (quote_chars s ++ dquote :: rest) = Some (s, rest).
Proof.
  induction s as [|c s IH]; simpl.
  - reflexivity.
  - rewrite <- app_assoc, parse_chars_quote_char, IH. reflexivity.
Qed.

Lemma take_digits_emit_uint u rest :
  number_end rest = true →
  take_digits (emit_uint u ++ rest) = (u, rest).
Proof.
  intros Hend.
  induction u as [|u IH|u IH|u IH|u IH|u IH|u IH|u IH|u IH|u IH|u IH];
    simpl; try (rewrite IH; reflexivity).
  destruct rest as [|c r]; [reflexivity|].
  simpl in Hend. simpl.
  destruct (digit_of c) eqn:Hd; [|reflexivity].
  rewrite bool_decide_eq_true_2 in Hend by eauto. discriminate.
Qed.

Lemma emit_uint_head u :
  u ≠ Nil → ∃ c t, emit_uint u = c :: t ∧ is_Some (digit_of c).
Proof.
  destruct u; [congruence|..]; intros _; simpl; eexists _, _;
    (split; [reflexivity|]); vm_compute; eauto.
Qed.

Lemma to_uint_no_leading_zero p u : Pos.to_uint p ≠ D0 u.
Proof.
  intros Heq.
  pose proof (DecimalPos.Unsigned.to_of (Pos.to_uint p)) as Hto.
  rewrite DecimalPos.Unsigned.of_to in Hto. simpl in Hto.
  pose proof (DecimalPos.Unsigned.to_uint_nonzero p) as Hnz.
  assert (Hh : nzhead (Pos.to_uint p) ≠ Nil).
  { intros Hnil. apply Hnz. rewrite Hto. by apply unorm_0. }
  rewrite (unorm_nzhead _ Hh) in Hto.
  apply (nzhead_nonzero (Pos.to_uint p) u). congruence.
Qed.

Lemma parse_number_digits (neg : bool) u rest :
  u ≠ Nil → (∀ u', u = D0 u' → u' = Nil) → number_end rest = true →
  parse_number ((if neg then ["-"%char] else []) ++ emit_uint u ++ rest)
  = Some (JNum (Z.of_int (if neg then Neg u else Pos u)), rest).
Proof.
  intros Hnil Hzero Hend. unfold parse_number.
  assert (Hsplit :
    split_sign ((if neg then ["-"%char] else []) ++ emit_uint u ++ rest)
    = (neg, emit_uint u ++ rest)).
  { destruct neg; [reflexivity|]. simpl.
    destruct (emit_uint_head u Hnil) as (c & t & -> & Hc). simpl.
    destruct (Ascii.eqb_spec c "-"%char) as [->|]; [|reflexivity].
    vm_compute in Hc. by destruct Hc. }
  rewrite Hsplit, take_digits_emit_uint by done.
  assert (Hcont : continues_number rest = false).
  { destruct rest; [done|]. simpl in Hend.
    apply andb_true_iff in Hend as [_ Hend]. by apply negb_true_iff. }
  rewrite Hcont.
  destruct u as [|u'|u'|u'|u'|u'|u'|u'|u'|u'|u']; try done.
  rewrite (Hzero u' eq_refl). reflexivity.
Qed.

Lemma parse_number_emit n rest :
  number_end rest = true →
  parse_number (emit_number n ++ rest) = Some (JNum n, rest).
Proof.
  intros Hend. unfold emit_number.
  rewrite <- (DecimalZ.of_to n) at 2.
  destruct n as [|p|p]; simpl Z.to_int.
  - apply (parse_number_digits false (D0 Nil)); [done| |done].
    intros u' [= <-]. done.
  - apply (parse_number_digits false); [| |done].
    + apply DecimalPos.Unsigned.to_uint_nonnil.
    + intros u' Hu. by apply to_uint_no_leading_zero in Hu.
  - apply (parse_number_digits true); [| |done].
    + apply DecimalPos.Unsigned.to_uint_nonnil.
    + intros u' Hu. by apply to_uint_no_leading_zero in Hu.
Qed.

Lemma digit_value_start c :
  is_Some (digit_of c) → value_start c = true ∧ starts_number c = true.
Proof.
  destruct c as [[] [] [] [] [] [] [] []]; vm_compute;
    intros [? ?]; (discriminate || done).
Qed.

Lemma emit_number_head n :
  ∃ c t, emit_number n = c :: t ∧ value_start c = true
         ∧ starts_number c = true.
Proof.
  unfold emit_number.
  assert (Hu : ∀ u, u ≠ Nil →
    ∃ c t, emit_uint u = c :: t ∧ value_start c = true
           ∧ starts_number c = true).
  { intros u Hu. destruct (emit_uint_head u Hu) as (c & t & -> & Hc).
    exists c, t. split; [done|]. by apply digit_value_start. }
  destruct n as [|p|p]; simpl Z.to_int.
  - by apply Hu.
  - apply Hu, DecimalPos.Unsigned.to_uint_nonnil.
  - eexists _, _. split; [reflexivity|]. by vm_compute.
Qed.

Lemma emit_head v :
  ∃ c t, emit v = c :: t ∧ value_start c = true.
Proof.
  destruct v as [|[]|n|s|l|ps]; simpl;
    try (eexists _, _; split; [reflexivity|]; by vm_compute).
  destruct (emit_number_head n) as (c & t & -> & Hc & _). eauto.
Qed.

Lemma skip_ws_start c r : value_start c = true → skip_ws (c :: r) = c :: r.
Proof.
  unfold value_start. intros H. simpl.
  destruct (is_ws c); [done|reflexivity].
Qed.

Lemma skip_ws_emit v rest : skip_ws (emit v ++ rest) = emit v ++ rest.
Proof.
  destruct (emit_head v) as (c & t & -> & Hc). by apply skip_ws_start.
Qed.

Lemma obj_set_fresh k v ps :
  existsb (String.eqb k) (map fst ps) = false →
  obj_set k v ps = ps ++ [(k, v)].
Proof.
  induction ps as [|[k' v'] ps IH]; simpl; [done|].
  intros [Hk Hps]%orb_false_iff. rewrite Hk, IH; done.
Qed.

Lemma nodup_keys_snoc ks k :
  nodup_keys (ks ++ [k]) = nodup_keys ks && negb (existsb (λ k', String.eqb k' k) ks).
Proof.
  induction ks as [|k0 ks IH]; simpl; [done|].
  rewrite IH, existsb_app. simpl. rewrite orb_false_r, negb_orb.
  destruct (existsb (String.eqb k0) ks), (nodup_keys ks),
    (String.eqb k0 k), (existsb (λ k', String.eqb k' k) ks); done.
Qed.

Lemma build_object_nodup acc ps :
  nodup_keys (map fst (acc ++ ps)) = true →
  foldl (λ acc kv, obj_set kv.1 kv.2 acc) acc ps = acc ++ ps.
Proof.
  revert acc. induction ps as [|[k v] ps IH]; intros acc Hnd; simpl.
  - by rewrite app_nil_r.
  - assert (Hfresh : existsb (String.eqb k) (map fst acc) = false).
    { replace (acc ++ (k, v) :: ps) with ((acc ++ [(k, v)]) ++ ps) in Hnd
        by (by rewrite <- app_assoc).
      rewrite map_app, map_app in Hnd. simpl in Hnd.
      clear IH. induction (map fst ps) as [|k1 ks IHks] using rev_ind.
      - rewrite app_nil_r, nodup_keys_snoc in Hnd.
        apply andb_true_iff in Hnd as [_ Hnd]. apply negb_true_iff in Hnd.
        rewrite <- Hnd. clear. induction (map fst acc) as [|a l IHl]; simpl; [done|].
        by rewrite IHl, String.eqb_sym.
      - apply IHks. rewrite app_assoc, nodup_keys_snoc in Hnd.
        by apply andb_true_iff in Hnd as [Hnd _]. }
    rewrite (obj_set_fresh _ _ _ Hfresh), IH; rewrite <- app_assoc; done.
Qed.

Lemma parse_elements_S fuel s :
  parse_elements (S fuel) s =
    '(v, r) ← parse_value fuel s;
    match skip_ws r with
    | [] => None
    | c :: r' =>
        if Ascii.eqb c ","%char then
          '(vs, rest) ← parse_elements fuel r'; Some (v :: vs, rest)
        else if Ascii.eqb c "]"%char then Some ([v], r')
        else None
    end.
Proof. reflexivity. Qed.

Lemma parse_elements_emit l :
  l ≠ [] → Forall reads_back l →
  ∀ fuel rest, (sum_list (map (λ x, S (jsize x)) l) ≤ fuel)%nat →
    parse_elements fuel (join ","%char (map emit l) ++ "]"%char :: rest)
    = Some (l, rest).
Proof.
  induction l as [|x l IH]; [done|].
  intros _ [Hx Hl]%Forall_cons fuel rest Hfuel.
  destruct fuel as [|fuel]; simpl in Hfuel; [lia|].
  rewrite parse_elements_S.
  destruct l as [|y l'].
  - simpl join. rewrite Hx by (done || lia). simpl. reflexivity.
  - change (join ","%char (map emit (x :: y :: l')))
      with (emit x ++ ","%char :: join ","%char (map emit (y :: l'))).
    rewrite <- app_assoc, <- app_comm_cons.
    rewrite Hx by (done || lia). simpl mbind.
    change (skip_ws (","%char :: ?r)) with (","%char :: r).
    cbv iota beta. change (Ascii.eqb ","%char ","%char) with true. cbv iota.
    rewrite IH; [reflexivity|done|done|simpl in *; lia].
Qed.

Lemma parse_members_S fuel s :
  parse_members (S fuel) s =
    match skip_ws s with
    | [] => None
    | c :: r =>
        if Ascii.eqb c dquote then
          '(k, r1) ← parse_chars r;
          match skip_ws r1 with
          | [] => None
          | c1 :: r2 =>
              if Ascii.eqb c1 ":"%char then
                '(v, r3) ← parse_value fuel r2;
                match skip_ws r3 with
                | [] => None
                | c3 :: r4 =>
                    if Ascii.eqb c3 ","%char then
                      '(ps, rest) ← parse_members fuel r4;
                      Some ((k, v) :: ps, rest)
                    else if Ascii.eqb c3 "}"%char then Some ([(k, v)], r4)
                    else None
                end
              else None
          end
        else None
    end.
Proof. reflexivity. Qed.

Lemma emit_member_unfold k v tail :
  emit_member (k, v) ++ tail
  = dquote :: quote_chars k ++ dquote :: ":"%char :: emit v ++ tail.
Proof.
  unfold emit_member, emit_string. simpl.
  by rewrite <- !app_assoc.
Qed.

Lemma parse_members_emit ps :
  ps ≠ [] → Forall (λ kv, reads_back kv.2) ps →
  ∀ fuel rest, (sum_list (map (λ kv, S (jsize kv.2)) ps) ≤ fuel)%nat →
    parse_members fuel
      (join ","%char (map emit_member ps) ++ "}"%char :: rest)
    = Some (ps, rest).
Proof.
  induction ps as [|[k v] ps IH]; [done|].
  intros _ [Hv Hps]%Forall_cons fuel rest Hfuel. simpl in Hv.
  destruct fuel as [|fuel]; simpl in Hfuel; [lia|].
  rewrite parse_members_S.
  destruct ps as [|kv ps'].
  - simpl join. rewrite emit_member_unfold.
    change (skip_ws (dquote :: ?r)) with (dquote :: r). cbv iota beta.
    change (Ascii.eqb dquote dquote) with true. cbv iota.
    rewrite parse_chars_quote_chars. simpl mbind.
    change (skip_ws (":"%char :: ?r)) with (":"%char :: r). cbv iota beta.
    change (Ascii.eqb ":"%char ":"%char) with true. cbv iota.
    rewrite Hv by (done || lia). reflexivity.
  - change (join ","%char (map emit_member ((k, v) :: kv :: ps')))
      with (emit_member (k, v)
              ++ ","%char :: join ","%char (map emit_member (kv :: ps'))).
    rewrite <- app_assoc, <- app_comm_cons, emit_member_unfold.
    change (skip_ws (dquote :: ?r)) with (dquote :: r). cbv iota beta.
    change (Ascii.eqb dquote dquote) with true. cbv iota.
    rewrite parse_chars_quote_chars. simpl mbind.
    change (skip_ws (":"%char :: ?r)) with (":"%char :: r). cbv iota beta.
    change (Ascii.eqb ":"%char ":"%char) with true. cbv iota.
    rewrite Hv by (done || lia). simpl mbind.
    change (skip_ws (","%char :: ?r)) with (","%char :: r). cbv iota beta.
    change (Ascii.eqb ","%char ","%char) with true. cbv iota.
    rewrite IH; [reflexivity|done|done|simpl in *; lia].
Qed.

Lemma join_head (f : JSON → list ascii) x l tail :
  (∀ v t, ∃ c r, f v ++ t = c :: r ∧ value_start c = true) →
  ∃ c r, join ","%char (map f (x :: l)) ++ tail = c :: r
         ∧ value_start c = true.
Proof.
  intros Hf. destruct l as [|y l]; simpl.
  - apply Hf.
  - rewrite <- app_assoc. apply Hf.
Qed.

Lemma parse_value_S fuel c r :
  value_start c = true →
  parse_value (S fuel) (c :: r) =
    if starts_number c then parse_number (c :: r)
    else if Ascii.eqb c dquote then
      '(str, rest) ← parse_chars r; Some (JStr str, rest)
    else if Ascii.eqb c "["%char then
      match skip_ws r with
      | [] => None
      | c' :: r' =>
          if Ascii.eqb c' "]"%char then Some (JArr [], r')
          else '(vs, rest) ← parse_elements fuel (c' :: r');
               Some (JArr vs, rest)
      end
    else if Ascii.eqb c "{"%char then
      match skip_ws r with
      | [] => None
      | c' :: r' =>
          if Ascii.eqb c' "}"%char then Some (JObj [], r')
          else '(ps, rest) ← parse_members fuel (c' :: r');
               Some (JObj (foldl (λ acc kv, obj_set kv.1 kv.2 acc) [] ps),
                     rest)
      end
    else if Ascii.eqb c "n"%char then parse_literal "ull" JNull r
    else if Ascii.eqb c "t"%char then parse_literal "rue" (JBool true) r
    else if Ascii.eqb c "f"%char then parse_literal "alse" (JBool false) r
    else None.
Proof.
  intros Hc. change (parse_value (S fuel) (c :: r)) with
    (match skip_ws (c :: r) with
     | [] => None
     | c :: r =>
         if starts_number c then parse_number (c :: r)
         else if Ascii.eqb c dquote then
           '(str, rest) ← parse_chars r; Some (JStr str, rest)
         else if Ascii.eqb c "["%char then
           match skip_ws r with
           | [] => None
           | c' :: r' =>
               if Ascii.eqb c' "]"%char then Some (JArr [], r')
               else '(vs, rest) ← parse_elements fuel (c' :: r');
                    Some (JArr vs, rest)
           end
         else if Ascii.eqb c "{"%char then
           match skip_ws r with
           | [] => None
           | c' :: r' =>
               if Ascii.eqb c' "}"%char then Some (JObj [], r')
               else '(ps, rest) ← parse_members fuel (c' :: r');
                    Some (JObj (foldl (λ acc kv, obj_set kv.1 kv.2 acc) [] ps),
                          rest)
           end
         else if Ascii.eqb c "n"%char then parse_literal "ull" JNull r
         else if Ascii.eqb c "t"%char then parse_literal "rue" (JBool true) r
         else if Ascii.eqb c "f"%char then parse_literal "alse" (JBool false) r
         else None
     end).
  by rewrite skip_ws_start.
Qed.

Lemma value_start_not_close c :
  value_start c = true →
  Ascii.eqb c "]"%char = false ∧ Ascii.eqb c "}"%char = false.
Proof.
  unfold value_start.
  destruct (Ascii.eqb c "]"%char), (Ascii.eqb c "}"%char), (is_ws c); done.
Qed.

Theorem parse_emit v : wf_json v = true → reads_back v.
Proof.
  induction v as [|b|n|s|l IH|ps IH] using JSON_nested_ind;
    intros Hwf fuel rest Hfuel Hend;
    (destruct fuel as [|fuel]; [simpl in Hfuel; lia|]).
  - reflexivity.
  - destruct b; reflexivity.
  - destruct (emit_number_head n) as (c & t & Hn & Hc & Hnum).
    simpl emit. pose proof (parse_number_emit n rest Hend) as Hp.
    rewrite Hn in *. rewrite <- app_comm_cons in *.
    by rewrite parse_value_S, Hnum.
  - simpl emit. unfold emit_string.
    rewrite <- app_comm_cons, parse_value_S by done.
    change (starts_number dquote) with false. cbv iota.
    change (Ascii.eqb dquote dquote) with true. cbv iota.
    rewrite <- app_assoc. simpl app.
    by rewrite parse_chars_quote_chars.
  - simpl emit. rewrite <- app_comm_cons, parse_value_S by done.
    change (starts_number "["%char) with false. cbv iota.
    change (Ascii.eqb "["%char dquote) with false. cbv iota.
    change (Ascii.eqb "["%char "["%char) with true. cbv iota.
    rewrite <- app_assoc. simpl app.
    destruct l as [|x l]; [reflexivity|].
    assert (Hall : Forall reads_back (x :: l)).
    { change (forallb wf_json (x :: l) = true) in Hwf.
      rewrite forallb_forall in Hwf. rewrite Forall_forall in IH |- *.
      intros y Hy. apply IH; [done|]. by apply Hwf, list_elem_of_In. }
    destruct (join_head emit x l ("]"%char :: rest)) as (c & r & Hj & Hc).
    { intros v t. destruct (emit_head v) as (c & r & -> & Hc).
      exists c, (r ++ t). done. }
    pose proof (parse_elements_emit (x :: l) ltac:(done) Hall fuel rest) as Hp.
    rewrite Hj in *. rewrite skip_ws_start by done.
    destruct (value_start_not_close c Hc) as [-> _].
    rewrite Hp; [reflexivity|]. simpl in Hfuel |- *. lia.
  - change (emit (JObj ps))
      with ("{"%char :: join ","%char (map emit_member ps) ++ ["}"%char]).
    rewrite <- app_comm_cons, parse_value_S by done.
    change (starts_number "{"%char) with false. cbv iota.
    change (Ascii.eqb "{"%char dquote) with false. cbv iota.
    change (Ascii.eqb "{"%char "["%char) with false. cbv iota.
    change (Ascii.eqb "{"%char "{"%char) with true. cbv iota.
    rewrite <- app_assoc. change (["}"%char] ++ rest) with ("}"%char :: rest).
    destruct ps as [|kv ps]; [reflexivity|].
    simpl in Hwf. apply andb_true_iff in Hwf as [Hnd Hwf].
    assert (Hall : Forall (λ kv, reads_back kv.2) (kv :: ps)).
    { change (forallb (λ kv, wf_json kv.2) (kv :: ps) = true) in Hwf.
      rewrite forallb_forall in Hwf. rewrite Forall_forall in IH |- *.
      intros y Hy. apply IH; [done|]. by apply Hwf, list_elem_of_In. }
    pose proof (parse_members_emit (kv :: ps) ltac:(done) Hall fuel rest) as Hp.
    destruct kv as [k v].
    assert (Hj : ∃ r, join ","%char (map emit_member ((k, v) :: ps))
                        ++ "}"%char :: rest = dquote :: r).
    { destruct ps; simpl; eauto. }
    destruct Hj as [r Hj]. rewrite Hj in *.
    change (skip_ws (dquote :: r)) with (dquote :: r). cbv iota beta.
    change (Ascii.eqb dquote "}"%char) with false. cbv iota.
    rewrite Hp by (simpl in Hfuel |- *; lia).
    change (Some (JObj (foldl (λ acc kv, obj_set kv.1 kv.2 acc) []
                          ((k, v) :: ps)), rest)
            = Some (JObj ((k, v) :: ps), rest)).
    by rewrite (build_object_nodup [] ((k, v) :: ps)).
Qed.

Lemma join_length_bound {A} (f : A → list ascii) (g : A → nat) l :
  Forall (λ x, (g x ≤ length (f x))%nat) l →
  (sum_list (map (λ x, S (g x)) l) ≤ S (length (join ","%char (map f l))))%nat.
Proof.
  induction l as [|x l IH]; [simpl; lia|].
  intros [Hx Hl]%Forall_cons. specialize (IH Hl).
  destruct l as [|y l]; [simpl in *; lia|].
  change (join ","%char (map f (x :: y :: l)))
    with (f x ++ ","%char :: join ","%char (map f (y :: l))).
  rewrite length_app. simpl in *. lia.
Qed.

Lemma jsize_le_length v : (jsize v ≤ length (emit v))%nat.
Proof.
  induction v as [|b|n|s|l IH|ps IH] using JSON_nested_ind;
    try (match goal with
         | |- (_ ≤ length (emit ?v))%nat =>
             destruct (emit_head v) as (c & t & Heq & _);
             rewrite Heq; simpl; lia
         end).
  - pose proof (join_length_bound emit jsize l IH) as H.
    simpl. rewrite length_app. simpl. lia.
  - assert (Hm : Forall (λ kv : string * JSON,
                    (jsize kv.2 ≤ length (emit_member kv))%nat) ps).
    { eapply Forall_impl; [exact IH|]. intros [k v] Hkv.
      unfold emit_member. rewrite length_app. simpl in *. lia. }
    pose proof (join_length_bound emit_member (λ kv, jsize kv.2) ps Hm) as H.
    change (emit (JObj ps))
      with ("{"%char :: join ","%char (map emit_member ps) ++ ["}"%char]).
    simpl. rewrite length_app. simpl. lia.
Qed.

Theorem parse_emit_whole v : wf_json v = true → parse (emit v) = Some v.
Proof.
  intros Hwf. unfold parse.
  pose proof (parse_emit v Hwf (S (2 * length (emit v))) []) as Hp.
  rewrite app_nil_r in Hp. rewrite Hp; [reflexivity| |reflexivity].
  pose proof (jsize_le_length v). lia.
Qed.

(** *** What the reader returns is well formed *)

Lemma obj_set_keys k v ps :
  map fst (obj_set k v ps)
  = if existsb (String.eqb k) (map fst ps)
    then map fst ps else map fst ps ++ [k].
Proof.
  induction ps as [|[k' v'] ps IH]; simpl; [done|].
  destruct (String.eqb k k'); simpl; [done|].
  rewrite IH. by destruct (existsb _ _).
Qed.

Lemma existsb_eqb_flip k ks :
  existsb (λ k', String.eqb k' k) ks = existsb (String.eqb k) ks.
Proof.
  induction ks as [|a ks IH]; simpl; [done|].
  by rewrite IH, String.eqb_sym.
Qed.

Lemma obj_set_nodup k v ps :
  nodup_keys (map fst ps) = true →
  nodup_keys (map fst (obj_set k v ps)) = true.
Proof.
  intros Hnd. rewrite obj_set_keys.
  destruct (existsb _ _) eqn:Hex; [done|].
  by rewrite nodup_keys_snoc, existsb_eqb_flip, Hex, Hnd.
Qed.

Lemma obj_set_values k v ps :
  forallb (λ kv, wf_json kv.2) ps = true → wf_json v = true →
  forallb (λ kv, wf_json kv.2) (obj_set k v ps) = true.
Proof.
  intros Hps Hv. induction ps as [|[k' v'] ps IH]; simpl in *.
  - by rewrite Hv.
  - apply andb_true_iff in Hps as [Hv' Hps].
    destruct (String.eqb k k'); simpl.
    + by rewrite Hv, Hps.
    + by rewrite Hv', IH.
Qed.

Lemma build_object_wf ps acc :
  nodup_keys (map fst acc) = true →
  forallb (λ kv, wf_json kv.2) acc = true →
  forallb (λ kv, wf_json kv.2) ps = true →
  wf_json (JObj (foldl (λ acc kv, obj_set kv.1 kv.2 acc) acc ps)) = true.
Proof.
  revert acc. induction ps as [|[k v] ps IH]; intros acc Hnd Hacc Hps.
  - simpl. by rewrite Hnd, Hacc.
  - simpl in Hps. apply andb_true_iff in Hps as [Hv Hps].
    simpl foldl. apply IH; [by apply obj_set_nodup| |done].
    by apply obj_set_values.
Qed.

Lemma parse_number_wf s v r :
  parse_number s = Some (v, r) → wf_json v = true.
Proof.
  unfold parse_number.
  destruct (split_sign s) as [neg s1], (take_digits s1) as [u r'].
  destruct u; try discriminate;
    destruct (_ || _); try discriminate; by intros [= <- _].
Qed.

Lemma parse_literal_wf lit v0 s v r :
  wf_json v0 = true → parse_literal lit v0 s = Some (v, r) →
  wf_json v = true.
Proof.
  unfold parse_literal. intros Hv0.
  destruct (strip_prefix _ s); [|discriminate]. by intros [= <- _].
Qed.

Lemma parse_value_wf fuel :
  (∀ s v r, parse_value fuel s = Some (v, r) → wf_json v = true)
  ∧ (∀ s vs r, parse_elements fuel s = Some (vs, r) →
               forallb wf_json vs = true)
  ∧ (∀ s ps r, parse_members fuel s = Some (ps, r) →
               forallb (λ kv, wf_json kv.2) ps = true).
Proof.
  induction fuel as [|fuel (IHv & IHe & IHm)]; [by repeat split|].
  split; [|split].
  - intros s v r Hp. simpl in Hp.
    destruct (skip_ws s) as [|c s']; [discriminate|].
    destruct (starts_number c); [by eapply parse_number_wf|].
    destruct (Ascii.eqb c dquote).
    { destruct (parse_chars s') as [[str rest]|]; [|discriminate].
      by injection Hp as <- _. }
    destruct (Ascii.eqb c "["%char).
    { destruct (skip_ws s') as [|c' r']; [discriminate|].
      destruct (Ascii.eqb c' "]"%char); [by injection Hp as <- _|].
      destruct (parse_elements fuel (c' :: r')) as [[vs rest]|] eqn:He;
        [|discriminate].
      injection Hp as <- _. simpl. by eapply IHe. }
    destruct (Ascii.eqb c "{"%char).
    { destruct (skip_ws s') as [|c' r']; [discriminate|].
      destruct (Ascii.eqb c' "}"%char); [by injection Hp as <- _|].
      destruct (parse_members fuel (c' :: r')) as [[ps rest]|] eqn:Hm;
        [|discriminate].
      injection Hp as <- _. apply build_object_wf; [done|done|].
      by eapply IHm. }
    destruct (Ascii.eqb c "n"%char); [by eapply parse_literal_wf; [|exact Hp]|].
    destruct (Ascii.eqb c "t"%char); [by eapply parse_literal_wf; [|exact Hp]|].
    destruct (Ascii.eqb c "f"%char); [by eapply parse_literal_wf; [|exact Hp]|].
    discriminate.
  - intros s vs r Hp. rewrite parse_elements_S in Hp.
    destruct (parse_value fuel s) as [[v r1]|] eqn:Hv; [|discriminate].
    simpl in Hp. apply IHv in Hv.
    destruct (skip_ws r1) as [|c r2]; [discriminate|].
    destruct (Ascii.eqb c ","%char).
    { destruct (parse_elements fuel r2) as [[vs' rest]|] eqn:He;
        [|discriminate].
      injection Hp as <- _. simpl. rewrite Hv. by eapply IHe. }
    destruct (Ascii.eqb c "]"%char); [|discriminate].
    injection Hp as <- _. simpl. by rewrite Hv.
  - intros s ps r Hp. rewrite parse_members_S in Hp.
    destruct (skip_ws s) as [|c s']; [discriminate|].
    destruct (Ascii.eqb c dquote); [|discriminate].
    destruct (parse_chars s') as [[k r1]|]; [|discriminate]. simpl in Hp.
    destruct (skip_ws r1) as [|c1 r2]; [discriminate|].
    destruct (Ascii.eqb c1 ":"%char); [|discriminate].
    destruct (parse_value fuel r2) as [[v r3]|] eqn:Hv; [|discriminate].
    simpl in Hp. apply IHv in Hv.
    destruct (skip_ws r3) as [|c3 r4]; [discriminate|].
    destruct (Ascii.eqb c3 ","%char).
    { destruct (parse_members fuel r4) as [[ps' rest]|] eqn:Hm;
        [|discriminate].
      injection Hp as <- _. simpl. rewrite Hv. by eapply IHm. }
    destruct (Ascii.eqb c3 "}"%char); [|discriminate].
    injection Hp as <- _. simpl. by rewrite Hv.
Qed.

Theorem parse_wf s v : parse s = Some v → wf_json v = true.
Proof.
  unfold parse.
  destruct (parse_value (S (2 * length s)) s) as [[v' r]|] eqn:Hp;
    [|discriminate].
  simpl. destruct (skip_ws r); [|discriminate]. intros [= <-].
  by eapply (proj1 (parse_value_wf _)).
Qed.

End TextFacts.

(** [JSON.parse (JSON.stringify v)] gives [v] back. *)
Lemma parse_stringify v :
  wf_json v = true → JSONText.parse (JSONText.stringify v) = Some v.
Proof.
  intros Hwf. unfold JSONText.parse, JSONText.stringify.
  rewrite list_ascii_of_string_of_list_ascii.
  by apply TextFacts.parse_emit_whole.
Qed.

(** ** The handlers of [App] *)

Lemma obj_get_set k k' v ps :
  obj_get k (obj_set k' v ps) = if String.eqb k k' then Some v else obj_get k ps.
Proof.
  induction ps as [|[k0 v0] ps IH]; simpl.
  - destruct (String.eqb_spec k k'); reflexivity.
  - destruct (String.eqb_spec k' k0) as [->|Hne]; simpl.
    + destruct (String.eqb_spec k k0); reflexivity.
    + rewrite IH. destruct (String.eqb_spec k k0) as [->|]; [|reflexivity].
      destruct (String.eqb_spec k0 k'); congruence.
Qed.

(** The spread keeps every property but the three that are assigned. *)
Lemma fullResult_keeps `{Platform} ps now_id now_ts text k :
  k ≠ "id" → k ≠ "timestamp" → k ≠ "original" →
  get_prop (fullResult (JObj ps) now_id now_ts text) k = ret (obj_get k ps).
Proof.
  intros H1 H2 H3. unfold fullResult, get_prop. simpl. rewrite !obj_get_set.
  by rewrite !(proj2 (String.eqb_neq _ _)).
Qed.

Lemma fullResult_id `{Platform} result now_id now_ts text :
  get_prop (fullResult result now_id now_ts text) "id"
  = ret (Some (JStr (Number_toString now_id))).
Proof. unfold fullResult, get_prop. by rewrite !obj_get_set. Qed.

Lemma fullResult_payload `{Platform} p now_id now_ts text :
  fullResult (js_of_AnalysisPayload p) now_id now_ts text
  = js_of_AnalysisResult (record_of p text now_id now_ts).
Proof. reflexivity. Qed.

Section HandlerFacts.
Context `{Platform}.

Lemma handleAnalyze_ok text response now_id now_ts w result :
  analyzeSentence text response = ret result →
  handleAnalyze text response now_id now_ts w
  = setIsAnalyzing false
      (saveEffect
         (setHistory (λ prev, fullResult result now_id now_ts text :: prev)
            (setIsAnalyzing true w))).
Proof. unfold handleAnalyze. by intros ->. Qed.

Lemma handleAnalyze_throws text response now_id now_ts w e :
  analyzeSentence text response = throw e →
  handleAnalyze text response now_id now_ts w
  = setIsAnalyzing false
      (alert "Sorry, I couldn't analyze that sentence. Please check your API key or internet connection."
         (console_error None e (setIsAnalyzing true w))).
Proof. unfold handleAnalyze. by intros ->. Qed.

Lemma analyzeSentence_rejected sentence e :
  ∃ e', analyzeSentence sentence (throw e) = throw e'.
Proof.
  unfold analyzeSentence, getAI. destruct (truthy API_KEY); simpl; eauto.
Qed.

Lemma askTutor_rejected question context e :
  ∃ e', askTutor question context (throw e) = throw e'.
Proof.
  unfold askTutor, getAI. destruct (truthy API_KEY); simpl; eauto.
Qed.

(** C1: appending a payload [P] for the input text [T] puts a new record
    at the front of the history: its [original] is [T], and its
    [translation], [language], [grammarPoints] and [vocabulary] are
    those of [P], as they came; it is the object of the typed record
    with these fields.  The records already stored follow it, untouched
    and in their order.  The new history is what is persisted. *)
Theorem handleAnalyze_appends (P : AnalysisPayload) (T text : string)
    (now_id now_ts : Z) (w : World) :
  is_Some (truthy API_KEY) →
  text ≠ EmptyString →
  JSON_parse text = Some (js_of_AnalysisPayload P) →
  let w' := handleAnalyze T (ret (Some text)) now_id now_ts w in
  ∃ record,
    history w' = record :: history w
    ∧ get_prop record "original" = ret (Some (JStr T))
    ∧ get_prop record "translation"
      = ret (Some (JStr (payload_translation P)))
    ∧ get_prop record "language" = ret (Some (JStr (payload_language P)))
    ∧ get_prop record "grammarPoints"
      = ret (Some (JArr (map js_of_GrammarPoint (payload_grammarPoints P))))
    ∧ get_prop record "vocabulary"
      = ret (Some (JArr (map js_of_VocabularyItem (payload_vocabulary P))))
    ∧ record = js_of_AnalysisResult (record_of P T now_id now_ts)
    ∧ localStorage w' !! "lingolog_history"
      = Some (JSON_stringify (JArr (history w'))).
Proof.
  intros [key Hkey] Htext Hparse w'.
  assert (Hres : analyzeSentence T (ret (Some text))
                 = ret (js_of_AnalysisPayload P)).
  { unfold analyzeSentence, getAI. rewrite Hkey.
    destruct text as [|c r]; [done|]. simpl. by rewrite Hparse. }
  subst w'. rewrite (handleAnalyze_ok _ _ _ _ _ _ Hres).
  exists (fullResult (js_of_AnalysisPayload P) now_id now_ts T).
  repeat split. simpl. apply lookup_insert_eq.
Qed.

(** C7: when the model call of an analysis fails, the history and its
    persisted snapshot are what they were, nothing else of the state
    changes, and the busy flag is down again; the user is told. *)
Theorem handleAnalyze_service_error (T : string) (e : exn)
    (now_id now_ts : Z) (w : World) :
  let w' := handleAnalyze T (throw e) now_id now_ts w in
  history w' = history w
  ∧ localStorage w' = localStorage w
  ∧ qaResult w' = qaResult w
  ∧ activeTab w' = activeTab w
  ∧ isAnalyzing w' = false
  ∧ length (alerts w') = S (length (alerts w)).
Proof.
  destruct (analyzeSentence_rejected T e) as [e' He']. cbv zeta.
  rewrite (handleAnalyze_throws _ _ _ _ _ _ He'). simpl.
  repeat split. rewrite length_app. simpl. lia.
Qed.

(** C10: when a tutor query fails, the answer on display stays as it
    was (kept, if there was one); of the state only the busy flag is
    written, and it ends down. *)
Theorem handleAskTutor_failure_keeps_answer (question : string) (e : exn)
    (now_id now_ts : Z) (w : World) :
  let w' := handleAskTutor question (throw e) now_id now_ts w in
  qaResult w' = qaResult w
  ∧ history w' = history w
  ∧ activeTab w' = activeTab w
  ∧ localStorage w' = localStorage w
  ∧ isAnalyzing w' = false.
Proof.
  cbv zeta. unfold handleAskTutor.
  destruct (context_of (history (setIsAnalyzing true w))) as [e0|context];
    simpl; [done|].
  destruct (askTutor_rejected question context e) as [e' ->]. done.
Qed.

(** C3 (amended): [askTutor] hands a non-empty response text through
    unchanged and answers an empty or absent one with the fixed sentence
    "I couldn't generate an answer."; it does not fail then, and
    [handleAskTutor] shows what it returned as the answer. *)
Theorem askTutor_passthrough_or_fallback (text : option string)
    (question : string) (now_id now_ts : Z) (w : World)
    (context : option JSON) :
  is_Some (truthy API_KEY) →
  context_of (history w) = ret context →
  ∃ answer,
    askTutor question context (ret text) = ret answer
    ∧ (∀ c r, text = Some (String c r) → answer = String c r)
    ∧ (text = None ∨ text = Some EmptyString →
       answer = "I couldn't generate an answer.")
    ∧ qaResult (handleAskTutor question (ret text) now_id now_ts w)
      = Some (QaResult.mk (Number_toString now_id) now_ts question answer
                context).
Proof.
  intros [key Hkey] Hctx.
  assert (Hask : ∃ answer,
    askTutor question context (ret text) = ret answer
    ∧ (∀ c r, text = Some (String c r) → answer = String c r)
    ∧ (text = None ∨ text = Some EmptyString →
       answer = "I couldn't generate an answer.")).
  { unfold askTutor, getAI. rewrite Hkey. simpl. eexists.
    split; [reflexivity|]. split; [by intros c r ->|by intros [-> | ->]]. }
  destruct Hask as (answer & Hask & Hpass & Hfall).
  exists answer. repeat split; try done.
  unfold handleAskTutor. simpl history. rewrite Hctx. simpl.
  by rewrite Hask.
Qed.

Lemma read_decimal_toString t : read_decimal (Number_toString t) = Some t.
Proof.
  unfold read_decimal.
  change (Number_toString t) with (JSONText.stringify (JNum t)).
  by rewrite parse_stringify.
Qed.

Lemma Number_toString_inj t1 t2 :
  Number_toString t1 = Number_toString t2 ↔ t1 = t2.
Proof.
  split; [|by intros ->]. intros Heq.
  pose proof (read_decimal_toString t1) as H1.
  rewrite Heq, read_decimal_toString in H1. congruence.
Qed.

Lemma fullResult_id_number result now_id now_ts text :
  id_number (fullResult result now_id now_ts text) = Some now_id.
Proof.
  unfold fullResult, id_number. rewrite !obj_get_set. simpl.
  apply read_decimal_toString.
Qed.

(** The id of a record is the decimal numeral of the clock reading at
    its creation.  Two records have the same id exactly when they were
    created at the same reading, and the numbers their ids denote are
    those readings. *)
Lemma record_id_is_clock_reading (TA TB : string)
    (respA respB : result (option string)) (resA resB : JSON)
    (tA tsA tB tsB : Z) (wa wb : World) :
  analyzeSentence TA respA = ret resA →
  analyzeSentence TB respB = ret resB →
  ∃ recA recB,
    history (handleAnalyze TA respA tA tsA wa) = recA :: history wa
    ∧ history (handleAnalyze TB respB tB tsB wb) = recB :: history wb
    ∧ get_prop recA "id" = ret (Some (JStr (Number_toString tA)))
    ∧ get_prop recB "id" = ret (Some (JStr (Number_toString tB)))
    ∧ (get_prop recA "id" = get_prop recB "id" ↔ tA = tB)
    ∧ id_number recA = Some tA
    ∧ id_number recB = Some tB.
Proof.
  intros HA HB.
  exists (fullResult resA tA tsA TA), (fullResult resB tB tsB TB).
  rewrite (handleAnalyze_ok _ _ _ _ _ _ HA), (handleAnalyze_ok _ _ _ _ _ _ HB).
  rewrite !fullResult_id, !fullResult_id_number.
  repeat split; try done.
  - intros [= Heq]. by apply Number_toString_inj.
  - by intros ->.
Qed.

Lemma keep_item id item :
  item ≠ JNull →
  (let* item_id := get_prop item "id" in ret (strict_neq_string item_id id))
  = ret (negb (has_id id item)).
Proof.
  intros Hnull. destruct item as [| | | | |ps]; try done. simpl.
  destruct (obj_get "id" ps) as [[| | | | |]|]; reflexivity.
Qed.

Lemma array_filter_items id l :
  Forall (λ item, item ≠ JNull) l →
  array_filter
    (λ item, let* item_id := get_prop item "id" in
             ret (strict_neq_string item_id id)) l
  = ret (List.filter (λ item, negb (has_id id item)) l).
Proof.
  induction 1 as [|item l Hitem Hl IH]; [reflexivity|].
  simpl. rewrite (keep_item id item Hitem). simpl. rewrite IH. simpl.
  by destruct (has_id id item).
Qed.

Lemma filter_split_length {A} (f : A → bool) l :
  (length (List.filter (λ x, negb (f x)) l) + length (List.filter f l)
   = length l)%nat.
Proof.
  induction l as [|x l IH]; [reflexivity|].
  simpl. destruct (f x); simpl; lia.
Qed.

Lemma filter_none {A} (f : A → bool) l :
  Forall (λ x, f x = false) l → List.filter (λ x, negb (f x)) l = l.
Proof.
  induction 1 as [|x l Hx Hl IH]; [reflexivity|].
  simpl. by rewrite Hx, IH.
Qed.

Lemma has_id_id_of id item : has_id id item = true ↔ id_of item = Some id.
Proof.
  unfold has_id, id_of. destruct item as [| | | | |ps]; try done.
  destruct (obj_get "id" ps) as [[| | |s| |]|]; try done.
  rewrite String.eqb_eq. split; [by intros ->|by intros [= ->]].
Qed.

Lemma ids_has_id id l :
  id ∉ ids l ↔ Forall (λ item, has_id id item = false) l.
Proof.
  unfold ids. rewrite Forall_forall. split.
  - intros Hout item Hin. apply not_true_is_false.
    intros Hid%has_id_id_of. apply Hout.
    apply list_elem_of_omap. eauto.
  - intros Hall (item & Hin & Hid)%list_elem_of_omap.
    apply has_id_id_of in Hid. rewrite (Hall item Hin) in Hid. done.
Qed.

Lemma carriers_unique id l :
  NoDup (ids l) → id ∈ ids l → length (List.filter (has_id id) l) = 1%nat.
Proof.
  unfold ids. induction l as [|item l IH]; simpl.
  - by intros _ ?%elem_of_nil.
  - destruct (id_of item) as [s|] eqn:Hs; simpl.
    + intros [Hfresh Hkeys]%NoDup_cons Hin.
      destruct (has_id id item) eqn:Hid.
      * apply has_id_id_of in Hid. rewrite Hs in Hid. injection Hid as ->.
        simpl. f_equal. apply length_zero_iff_nil.
        apply (proj1 (ids_has_id id l)) in Hfresh.
        clear -Hfresh. induction Hfresh as [|x l Hx _ IHl]; [done|].
        simpl. by rewrite Hx.
      * apply IH; [done|].
        apply elem_of_cons in Hin as [->|Hin]; [|done].
        apply has_id_id_of in Hs. congruence.
    + intros Hkeys Hin.
      destruct (has_id id item) eqn:Hid.
      * apply has_id_id_of in Hid. congruence.
      * by apply IH.
Qed.

Lemma filter_sublist {A} (f : A → bool) l : sublist (List.filter f l) l.
Proof.
  induction l as [|x l IH]; simpl; [constructor|].
  destruct (f x); by constructor.
Qed.

(** A confirmed delete filters the history by the id and persists what
    is kept; a declined one does nothing. *)
Lemma handleDelete_filters (id : string) (w : World) :
  Forall (λ item, item ≠ JNull) (history w) →
  ∃ w',
    handleDelete id true w = ret w'
    ∧ history w' = List.filter (λ item, negb (has_id id item)) (history w)
    ∧ Forall (λ item, has_id id item = false) (history w')
    ∧ (length (history w') + length (List.filter (has_id id) (history w))
       = length (history w))%nat
    ∧ (length (List.filter (has_id id) (history w)) = 1%nat →
       S (length (history w')) = length (history w))
    ∧ (Forall (λ item, has_id id item = false) (history w) →
       history w' = history w)
    ∧ localStorage w' !! "lingolog_history"
      = Some (JSON_stringify (JArr (history w')))
    ∧ handleDelete id false w = ret w.
Proof.
  intros Hitems. unfold handleDelete.
  rewrite (array_filter_items id _ Hitems). simpl.
  eexists. split; [reflexivity|]. simpl.
  pose proof (filter_split_length (has_id id) (history w)) as Hlen.
  repeat split.
  - apply Forall_forall. intros item Hin.
    apply list_elem_of_In, filter_In in Hin as [_ Hin].
    by apply negb_true_iff.
  - exact Hlen.
  - lia.
  - apply filter_none.
  - apply lookup_insert_eq.
Qed.

(** C4 (amended): in a store uniquely keyed by id, a confirmed delete
    of an id that a record carries takes the length down by exactly one,
    and afterwards no record carries the id; a delete of an id no record
    carries leaves the sequence as it is.  The records kept stay in
    their order and the new sequence is persisted.  The call has no
    value, and a declined confirmation leaves everything as it was. *)
Theorem handleDelete_removes_by_id (id : string) (w : World) :
  Forall (λ item, item ≠ JNull) (history w) →
  NoDup (ids (history w)) →
  ∃ w',
    handleDelete id true w = ret w'
    ∧ (id ∉ ids (history w'))
    ∧ sublist (history w') (history w)
    ∧ (id ∈ ids (history w) → S (length (history w')) = length (history w))
    ∧ (id ∉ ids (history w) → history w' = history w)
    ∧ localStorage w' !! "lingolog_history"
      = Some (JSON_stringify (JArr (history w')))
    ∧ handleDelete_value id true = None
    ∧ handleDelete id false w = ret w
    ∧ handleDelete_value id false = None.
Proof.
  intros Hitems Hkeys.
  destruct (handleDelete_filters id w Hitems)
    as (w' & Hdel & Hhist & Hgone & Hlen & _ & Hsame & Hstored & Hdeclined).
  exists w'. split; [exact Hdel|].
  split; [by apply ids_has_id|].
  split; [rewrite Hhist; apply filter_sublist|].
  split.
  { intros Hin. rewrite (carriers_unique id _ Hkeys Hin) in Hlen. lia. }
  split; [intros Hout; by apply Hsame, ids_has_id|].
  done.
Qed.

(** A stored snapshot that [JSON.parse] rejects leaves the history at
    its initial empty value; the mount completes, the failure goes to
    the console and nowhere else, and the empty history is what is
    stored from then on. *)
Lemma corrupt_snapshot_starts_empty (storage : gmap string string)
    (saved : string) :
  storage !! "lingolog_history" = Some saved →
  JSON_parse saved = None →
  ∃ w,
    startup storage = Mounted w
    ∧ history w = []
    ∧ isAnalyzing w = false
    ∧ alerts w = []
    ∧ (saved ≠ EmptyString →
       console w = [(Some "Failed to parse history", SyntaxError)])
    ∧ localStorage w !! "lingolog_history" = Some (JSON_stringify (JArr [])).
Proof.
  intros Hsaved Hparse. unfold startup, loadEffect. simpl localStorage.
  rewrite Hsaved. destruct saved as [|c r]; simpl.
  - eexists. split; [reflexivity|]. simpl.
    repeat split; [done|apply lookup_insert_eq].
  - rewrite Hparse. eexists. split; [reflexivity|]. simpl.
    repeat split. apply lookup_insert_eq.
Qed.

End HandlerFacts.

Example startup_first_visit :
  startup (H := browser (Some "key")) ∅ = Mounted first_visit.
Proof. reflexivity. Qed.

(** C9: a stored snapshot of another shape is not refused.  The text
    parses, so nothing is caught or logged, and the array becomes the
    history as it is; the render that follows reads [grammarPoints] of
    its newest element, finds no array and throws a [TypeError], which
    nothing catches.  By then the first save effect has overwritten the
    snapshot with the text of the empty array. *)
Theorem incompatible_snapshot_crashes :
  let storage : gmap string string :=
    {[ "lingolog_history" := incompatible_snapshot ]} in
  let w := setHistory (λ _, [incompatible_record])
             (saveEffect (H := browser (Some "key")) (mount storage)) in
  loadEffect (H := browser (Some "key")) (mount storage)
  = (mount storage, Some (JArr [incompatible_record]))
  ∧ history w = [incompatible_record]
  ∧ console w = []
  ∧ analyze_tab_reads w = Some (throw TypeError)
  ∧ localStorage w !! "lingolog_history" = Some "[]".
Proof. vm_compute. repeat split. Qed.

(** C3, as stated, fails: an empty response is answered, not refused. *)
Lemma askTutor_empty_response_is_answered :
  askTutor (H := browser (Some "key")) "wa?" None (ret (Some EmptyString))
  = ret "I couldn't generate an answer.".
Proof. reflexivity. Qed.

Lemma handleAnalyze_appends_witness :
  ∃ record,
    history (handleAnalyze (H := browser (Some "key")) "neko wa nete imasu"
               (ret (Some sample_text)) 1700000000000 1700000000001
               first_visit)
    = [record]
    ∧ get_prop record "original" = ret (Some (JStr "neko wa nete imasu"))
    ∧ get_prop record "translation"
      = ret (Some (JStr "The cat is sleeping on the bed")).
Proof.
  destruct (handleAnalyze_appends (H := browser (Some "key")) sample_payload
              "neko wa nete imasu" sample_text 1700000000000 1700000000001
              first_visit)
    as (record & Hhist & Horig & Htrans & _).
  - simpl. eauto.
  - discriminate.
  - vm_compute. reflexivity.
  - exists record. split; [exact Hhist|]. split; [exact Horig|exact Htrans].
Defined.

Lemma askTutor_passthrough_or_fallback_witness :
  ∃ answer,
    askTutor (H := browser (Some "key")) "wa?" None
      (ret (Some "wa marks the topic")) = ret answer
    ∧ answer = "wa marks the topic".
Proof.
  destruct (askTutor_passthrough_or_fallback (H := browser (Some "key"))
              (Some "wa marks the topic") "wa?" 1700000000000 1700000000001
              first_visit None)
    as (answer & Hask & Hpass & _).
  - simpl. eauto.
  - reflexivity.
  - exists answer. split; [exact Hask|]. by apply Hpass.
Defined.

(** C2: ids are not unique.  Two appends whose clock readings are the
    same millisecond give two records, of two sentences, with one id:
    the store is no longer uniquely keyed. *)
Theorem same_millisecond_same_id :
  let w1 := handleAnalyze (H := browser (Some "key")) "neko"
              (ret (Some sample_text)) 1700000000000 1700000000000 first_visit in
  let w2 := handleAnalyze (H := browser (Some "key")) "inu"
              (ret (Some sample_text)) 1700000000000 1700000000000 w1 in
  map (λ item, (get_prop item "original", get_prop item "id")) (history w2)
  = [(ret (Some (JStr "inu")), ret (Some (JStr "1700000000000")));
     (ret (Some (JStr "neko")), ret (Some (JStr "1700000000000")))]
  ∧ ids (history w2) = ["1700000000000"; "1700000000000"].
Proof. vm_compute. split; reflexivity. Qed.

Lemma record_id_is_clock_reading_witness :
  ∃ recA recB,
    history (handleAnalyze (H := browser (Some "key")) "neko"
               (ret (Some sample_text)) 1700000000000 1700000000000 first_visit)
    = recA :: []
    ∧ history (handleAnalyze (H := browser (Some "key")) "inu"
                 (ret (Some sample_text)) 1700000000250 1700000000250 first_visit)
      = recB :: []
    ∧ get_prop recA "id" = ret (Some (JStr (Number_toString 1700000000000)))
    ∧ get_prop recB "id" = ret (Some (JStr (Number_toString 1700000000250)))
    ∧ (get_prop recA "id" = get_prop recB "id"
       ↔ 1700000000000 = 1700000000250)
    ∧ id_number recA = Some 1700000000000
    ∧ id_number recB = Some 1700000000250.
Proof.
  apply (record_id_is_clock_reading (H := browser (Some "key")) "neko" "inu"
           (ret (Some sample_text)) (ret (Some sample_text))
           (js_of_AnalysisPayload sample_payload)
           (js_of_AnalysisPayload sample_payload)
           1700000000000 1700000000000 1700000000250 1700000000250
           first_visit first_visit).
  - vm_compute. reflexivity.
  - vm_compute. reflexivity.
Defined.

(** C4, as stated, fails.  A delete of an id no record carries leaves
    the sequence as it is, but the call has no value: it does not return
    false.  And a delete of an id a record carries removes nothing when
    the user declines the confirmation. *)
Lemma handleDelete_returns_no_value :
  ("42" ∉ ids (history one_record))
  ∧ (let* w' := handleDelete (H := browser (Some "key")) "42" true one_record in
     ret (history w'))
    = ret (history one_record)
  ∧ handleDelete_value "42" true ≠ Some (JBool false)
  ∧ "1700000000000" ∈ ids (history one_record)
  ∧ (let* w' := handleDelete (H := browser (Some "key")) "1700000000000"
                  false one_record in
     ret (length (history w')))
    = ret (length (history one_record)).
Proof.
  split.
  { vm_compute. intros Hin. apply list_elem_of_singleton in Hin. discriminate. }
  split; [vm_compute; reflexivity|].
  split; [discriminate|].
  split; [vm_compute; apply list_elem_of_singleton; reflexivity|].
  vm_compute. reflexivity.
Qed.

(** Where two records share an id, one delete removes both: the length
    goes from 2 to 0. *)
Lemma delete_shared_id_removes_both :
  let w1 := handleAnalyze (H := browser (Some "key")) "neko"
              (ret (Some sample_text)) 1700000000000 1700000000000 first_visit in
  let w2 := handleAnalyze (H := browser (Some "key")) "inu"
              (ret (Some sample_text)) 1700000000000 1700000000000 w1 in
  length (history w2) = 2%nat
  ∧ (let* w3 := handleDelete (H := browser (Some "key"))
                    "1700000000000" true w2 in
     ret (length (history w3)))
    = ret 0%nat.
Proof. vm_compute. split; reflexivity. Qed.

Lemma handleDelete_removes_by_id_witness :
  ∃ w',
    handleDelete (H := browser (Some "key")) "1700000000000" true two_records
    = ret w'
    ∧ ("1700000000000" ∉ ids (history w'))
    ∧ S (length (history w')) = length (history two_records).
Proof.
  destruct (handleDelete_removes_by_id (H := browser (Some "key"))
              "1700000000000" two_records)
    as (w' & Hdel & Hgone & _ & Hlen & _).
  - vm_compute. repeat constructor; discriminate.
  - vm_compute. apply NoDup_cons. split.
    + intros Hin. apply list_elem_of_singleton in Hin. discriminate.
    + apply NoDup_singleton.
  - exists w'. split; [exact Hdel|]. split; [exact Hgone|].
    apply Hlen. vm_compute. apply elem_of_cons. right.
    apply list_elem_of_singleton. reflexivity.
Defined.

Lemma corrupt_snapshot_starts_empty_witness :
  ∃ w,
    startup (H := browser (Some "key")) {[ "lingolog_history" := "{oops" ]}
    = Mounted w
    ∧ history w = [].
Proof.
  destruct (corrupt_snapshot_starts_empty (H := browser (Some "key"))
              {[ "lingolog_history" := "{oops" ]} "{oops")
    as (w & Hw & Hh & _).
  - vm_compute. reflexivity.
  - vm_compute. reflexivity.
  - exists w. split; [exact Hw|exact Hh].
Defined.

(** ** The persisted snapshot *)

Lemma wf_js_of_GrammarPoints gs :
  forallb wf_json (map js_of_GrammarPoint gs) = true.
Proof. induction gs as [|g gs IH]; [reflexivity|]. simpl. exact IH. Qed.

Lemma wf_js_of_VocabularyItems vs :
  forallb wf_json (map js_of_VocabularyItem vs) = true.
Proof. induction vs as [|v vs IH]; [reflexivity|]. simpl. exact IH. Qed.

Lemma wf_js_of_AnalysisResult r : wf_json (js_of_AnalysisResult r) = true.
Proof.
  unfold js_of_AnalysisResult.
  change (forallb wf_json (map js_of_GrammarPoint (grammarPoints r))
          && (forallb wf_json (map js_of_VocabularyItem (vocabulary r))
              && true) = true).
  by rewrite wf_js_of_GrammarPoints, wf_js_of_VocabularyItems.
Qed.

(** Typed records make a well-formed history. *)
Lemma wf_typed_history (S : list AnalysisResult) :
  forallb wf_json (map js_of_AnalysisResult S) = true.
Proof.
  induction S as [|r S IH]; [reflexivity|].
  change (wf_json (js_of_AnalysisResult r)
          && forallb wf_json (map js_of_AnalysisResult S) = true).
  by rewrite IH, wf_js_of_AnalysisResult.
Qed.

Lemma stringify_array_truthy l :
  truthy (Some (JSONText.stringify (JArr l)))
  = Some (JSONText.stringify (JArr l)).
Proof. reflexivity. Qed.

(** C8: the snapshot the save effect writes for a history is read back
    at the next start as that same history: as many records, in the same
    order, each equal to what it was, property by property. *)
Theorem snapshot_roundtrip (key : option string) (w : World) :
  forallb wf_json (history w) = true →
  ∃ w',
    startup (H := browser key) (localStorage (saveEffect (H := browser key) w))
    = Mounted w'
    ∧ history w' = history w
    ∧ length (history w') = length (history w)
    ∧ localStorage w' = localStorage (saveEffect (H := browser key) w)
    ∧ console w' = [].
Proof.
  intros Hwf. unfold startup, loadEffect.
  change (localStorage (mount ?m)) with m.
  change (localStorage (saveEffect w))
    with (<["lingolog_history" := JSONText.stringify (JArr (history w))]>
            (localStorage w)).
  rewrite lookup_insert_eq, stringify_array_truthy.
  change (@JSON_parse (browser key)) with JSONText.parse.
  rewrite parse_stringify by exact Hwf.
  eexists. split; [reflexivity|]. simpl.
  repeat split. unfold JSON_stringify. simpl.
  by rewrite !insert_insert_eq.
Qed.

Lemma snapshot_roundtrip_witness :
  ∃ w',
    startup (H := browser (Some "key"))
      (localStorage
         (handleAnalyze (H := browser (Some "key")) "neko wa nete imasu"
            (ret (Some sample_text)) 1700000000000 1700000000001 first_visit))
    = Mounted w'
    ∧ history w'
      = [js_of_AnalysisResult
           (record_of sample_payload "neko wa nete imasu"
              1700000000000 1700000000001)].
Proof.
  destruct (snapshot_roundtrip (Some "key")
              (handleAnalyze (H := browser (Some "key")) "neko wa nete imasu"
                 (ret (Some sample_text)) 1700000000000 1700000000001
                 first_visit))
    as (w' & Hstart & Hhist & _).
  - vm_compute. reflexivity.
  - exists w'. split; [exact Hstart|]. rewrite Hhist. vm_compute. reflexivity.
Defined.


(** ** What holds in every state of the running application *)

Lemma nodup_keys_NoDup ks : nodup_keys ks = true ↔ NoDup ks.
Proof.
  induction ks as [|k ks IH]; simpl.
  - split; [constructor|done].
  - rewrite andb_true_iff, negb_true_iff, IH, NoDup_cons.
    assert (existsb (String.eqb k) ks = false ↔ k ∉ ks) as ->; [|done].
    rewrite <- not_true_iff_false, existsb_exists. split.
    + intros Hno Hin. apply Hno. exists k.
      split; [by apply list_elem_of_In|apply String.eqb_refl].
    + intros Hno (k' & Hin & ->%String.eqb_eq).
      by apply Hno, list_elem_of_In.
Qed.

Lemma index_keys_nodup {A} (f : A → JSON) (l : list A) :
  nodup_keys
    (map fst (imap (λ i x, (Number_toString (Z.of_nat i), f x)) l)) = true.
Proof.
  apply nodup_keys_NoDup.
  assert (Hkeys :
    map fst (imap (λ i x, (Number_toString (Z.of_nat i), f x)) l)
    = (λ i, Number_toString (Z.of_nat i)) <$> seq 0 (length l)).
  { change (map fst ?l) with (fst <$> l).
    rewrite fmap_imap, <- imap_seq_0. by apply imap_ext. }
  rewrite Hkeys.
  apply NoDup_fmap_2_strong; [|apply NoDup_seq].
  intros i j _ _ Heq. by apply Number_toString_inj, Nat2Z.inj in Heq.
Qed.

Lemma index_values_wf {A} (f : A → JSON) (g : nat → string) (l : list A) :
  (∀ x, x ∈ l → wf_json (f x) = true) →
  forallb (λ kv, wf_json kv.2) (imap (λ i x, (g i, f x)) l) = true.
Proof.
  revert g. induction l as [|x l IH]; intros g Hl; [reflexivity|].
  rewrite imap_cons. simpl. rewrite Hl by apply list_elem_of_here.
  apply (IH (g ∘ S)). intros y Hy. by apply Hl, list_elem_of_further.
Qed.

Lemma spread_props_wf v :
  wf_json v = true →
  nodup_keys (map fst (spread_props v)) = true
  ∧ forallb (λ kv, wf_json kv.2) (spread_props v) = true.
Proof.
  destruct v as [|b|n|s|l|ps]; simpl; intros Hwf; try done.
  - split; [apply (index_keys_nodup (λ c, JStr (String c EmptyString)))|].
    by apply (index_values_wf (λ c, JStr (String c EmptyString))).
  - split; [apply (index_keys_nodup (λ x, x))|].
    apply (index_values_wf (λ x, x)). intros x Hx.
    rewrite forallb_forall in Hwf. by apply Hwf, list_elem_of_In.
  - by apply andb_true_iff.
Qed.

Lemma fullResult_wf `{Platform} result now_id now_ts text :
  wf_json result = true →
  wf_json (fullResult result now_id now_ts text) = true.
Proof.
  intros [Hnd Hval]%spread_props_wf. unfold fullResult. simpl.
  apply andb_true_iff. split.
  - by do 3 apply TextFacts.obj_set_nodup.
  - by do 3 (apply TextFacts.obj_set_values; [|done]).
Qed.

Lemma array_filter_keeps_all (P : JSON → bool) f l kept :
  array_filter f l = ret kept →
  forallb P l = true → forallb P kept = true.
Proof.
  revert kept. induction l as [|x l IH]; intros kept; simpl.
  - by intros [= <-].
  - destruct (f x) as [e|keep]; [discriminate|]. simpl.
    destruct (array_filter f l) as [e|rest]; [discriminate|]. simpl.
    intros [= <-] [Hx Hl]%andb_true_iff. specialize (IH rest eq_refl Hl).
    destruct keep; simpl; [by rewrite Hx|done].
Qed.

Lemma analyzeSentence_wf key sentence response v :
  analyzeSentence (H := browser key) sentence response = ret v →
  wf_json v = true.
Proof.
  unfold analyzeSentence.
  destruct getAI as [e|[]]; [discriminate|]. simpl.
  destruct response as [e|text]; [discriminate|]. simpl.
  destruct (truthy text) as [t|]; [|discriminate].
  destruct (JSONText.parse t) as [v'|] eqn:Hp; [|discriminate].
  intros [= <-]. by apply TextFacts.parse_wf in Hp.
Qed.

(** In every state the application reaches, the stored records are
    well formed and the stored snapshot is the text of the history. *)
Lemma reachable_wf_stored key w :
  reachable (H := browser key) w →
  forallb wf_json (history w) = true
  ∧ localStorage w !! "lingolog_history"
    = Some (JSONText.stringify (JArr (history w))).
Proof.
  induction 1 as [storage w Hstart
                 |w text response now_id now_ts _ [IHwf IHst]
                 |w question response now_id now_ts _ [IHwf IHst]
                 |w id confirmed w' _ [IHwf IHst] Hdel].
  - unfold startup, loadEffect in Hstart.
    destruct (truthy _) as [saved|]; simpl in Hstart.
    + destruct (JSONText.parse saved) as [v|] eqn:Hp; simpl in Hstart.
      * destruct v as [| | | |l|]; try discriminate.
        injection Hstart as <-. simpl.
        split; [|apply lookup_insert_eq].
        by apply TextFacts.parse_wf in Hp.
      * injection Hstart as <-. simpl. split; [done|apply lookup_insert_eq].
    + injection Hstart as <-. simpl. split; [done|apply lookup_insert_eq].
  - destruct (analyzeSentence (H := browser key) text response)
      as [e|result] eqn:Hres.
    + by rewrite (handleAnalyze_throws _ _ _ _ _ _ Hres).
    + rewrite (handleAnalyze_ok _ _ _ _ _ _ Hres).
      split; [|apply lookup_insert_eq].
      apply analyzeSentence_wf in Hres.
      change (wf_json (fullResult result now_id now_ts text)
              && forallb wf_json (history w) = true).
      by rewrite (fullResult_wf (H := browser key)), IHwf.
  - unfold handleAskTutor.
    destruct (context_of _) as [e|context]; simpl; [done|].
    destruct (askTutor (H := browser key) question context response); done.
  - unfold handleDelete in Hdel. destruct confirmed.
    + destruct (array_filter _ (history w)) as [e|kept] eqn:Hf;
        [discriminate|].
      injection Hdel as <-. simpl. split; [|apply lookup_insert_eq].
      by eapply array_filter_keeps_all.
    + by injection Hdel as <-.
Qed.


(** X28: in every state the application reaches, the stored records
    are well formed and the text under the storage key is the text of
    the history: the snapshot never lags behind the history. *)
Theorem reachable_invariant key w :
  reachable (H := browser key) w →
  forallb wf_json (history w) = true
  ∧ localStorage w !! "lingolog_history"
    = Some (JSONText.stringify (JArr (history w))).
Proof. apply reachable_wf_stored. Qed.

(** ** The vocabulary index *)

Lemma existsb_word acc curr :
  existsb (λ v, String.eqb (word (item v)) (word (item curr))) acc = true
  ↔ word (item curr) ∈ words acc.
Proof.
  unfold words. rewrite existsb_exists, list_elem_of_fmap. split.
  - intros (v & Hin & Heq). exists v.
    apply String.eqb_eq in Heq. by rewrite list_elem_of_In.
  - intros (v & Heq & Hin). exists v. rewrite <- list_elem_of_In.
    split; [done|]. by apply String.eqb_eq.
Qed.

Lemma dedupe_step_cases acc curr :
  (word (item curr) ∈ words acc ∧ dedupe_step acc curr = acc)
  ∨ ((word (item curr) ∉ words acc) ∧ dedupe_step acc curr = acc ++ [curr]).
Proof.
  unfold dedupe_step.
  destruct (existsb _ acc) eqn:Hex.
  - left. split; [|done]. by apply existsb_word.
  - right. split; [|done]. rewrite <- existsb_word. congruence.
Qed.

Lemma dedupe_NoDup l acc :
  NoDup (words acc) → NoDup (words (foldl dedupe_step acc l)).
Proof.
  revert acc. induction l as [|x l IH]; intros acc Hacc; [done|].
  simpl. apply IH.
  destruct (dedupe_step_cases acc x) as [[_ ->]|[Hx ->]]; [done|].
  unfold words in *. rewrite map_app. simpl.
  apply NoDup_app. split; [done|]. split; [|apply NoDup_singleton].
  intros y Hy ->%list_elem_of_singleton. done.
Qed.

(** The fold only ever appends, and only elements of its input. *)
Lemma dedupe_extends l acc :
  ∃ added, foldl dedupe_step acc l = acc ++ added ∧ added ⊆ l.
Proof.
  revert acc. induction l as [|x l IH]; intros acc; simpl.
  - exists []. by rewrite app_nil_r.
  - destruct (IH (dedupe_step acc x)) as (added & -> & Hsub).
    destruct (dedupe_step_cases acc x) as [[_ ->]|[_ ->]].
    + exists added. split; [done|].
      intros y Hy. apply elem_of_cons. right. by apply Hsub.
    + exists (x :: added). rewrite <- app_assoc. split; [done|].
      intros y [->|Hy]%elem_of_cons; apply elem_of_cons; [by left|right].
      by apply Hsub.
Qed.

Lemma dedupe_words l acc w :
  w ∈ words (foldl dedupe_step acc l) → w ∈ words acc ∨ w ∈ words l.
Proof.
  destruct (dedupe_extends l acc) as (added & -> & Hsub).
  unfold words. rewrite map_app, elem_of_app.
  intros [Hw|Hw]; [by left|right].
  apply list_elem_of_fmap in Hw as (e & -> & He).
  apply list_elem_of_fmap. exists e. split; [done|]. by apply Hsub.
Qed.

(** First occurrence wins. *)
Lemma dedupe_first pre x post acc :
  word (item x) ∉ words acc → word (item x) ∉ words pre →
  x ∈ foldl dedupe_step acc (pre ++ x :: post).
Proof.
  intros Hacc Hpre. rewrite foldl_app. simpl.
  destruct (dedupe_step_cases (foldl dedupe_step acc pre) x)
    as [[Hin _]|[_ ->]].
  - apply dedupe_words in Hin as [?|?]; done.
  - destruct (dedupe_extends post (foldl dedupe_step acc pre ++ [x]))
      as (added & -> & _).
    rewrite !elem_of_app, list_elem_of_singleton. eauto.
Qed.

Lemma same_word_same_entry (l : list TaggedVocabulary) e1 e2 :
  NoDup (words l) → e1 ∈ l → e2 ∈ l →
  word (item e1) = word (item e2) → e1 = e2.
Proof.
  induction l as [|x l IH]; [by intros _ ?%elem_of_nil|].
  unfold words. simpl. intros [Hx Hl]%NoDup_cons H1 H2 Heq.
  apply elem_of_cons in H1 as [->|H1]; apply elem_of_cons in H2 as [->|H2].
  - done.
  - exfalso. apply Hx. rewrite Heq. apply list_elem_of_fmap. eauto.
  - exfalso. apply Hx. rewrite <- Heq. apply list_elem_of_fmap. eauto.
  - by apply IH.
Qed.

Lemma flatten_vocabulary_app l1 l2 :
  flatten_vocabulary (l1 ++ l2)
  = flatten_vocabulary l1 ++ flatten_vocabulary l2.
Proof. unfold flatten_vocabulary. apply flat_map_app. Qed.

Lemma words_flatten_vocabulary items w :
  w ∈ words (flatten_vocabulary items) → Exists (holds_word w) items.
Proof.
  induction items as [|it items IH]; simpl.
  - by intros ?%elem_of_nil.
  - unfold words in *. rewrite map_app, elem_of_app. intros [Hw|Hw].
    + left. unfold holds_word. rewrite map_map in Hw. exact Hw.
    + right. by apply IH.
Qed.

Lemma includes_empty s : includes s EmptyString = true.
Proof. destruct s; reflexivity. Qed.

Lemma includes_self s : includes s s = true.
Proof.
  assert (Hp : ∀ t, String.prefix t t = true).
  { induction t as [|c t IH]; [reflexivity|]. simpl.
    destruct (ascii_dec c c); [exact IH|done]. }
  destruct s; simpl; [reflexivity|].
  apply orb_true_iff. left. apply (Hp (String _ _)).
Qed.

Lemma prefix_occurs t s : String.prefix t s = true ↔ ∃ b, s = t +:+ b.
Proof.
  revert s. induction t as [|c t IH]; intros s.
  - destruct s; simpl; split; eauto.
  - destruct s as [|c' s]; simpl.
    + split; [done|]. by intros [b ?].
    + destruct (ascii_dec c c') as [->|Hne].
      * rewrite IH. split; intros [b Hb]; exists b.
        -- simpl. by rewrite Hb.
        -- simpl in Hb. by injection Hb.
      * split; [done|]. intros [b [= ? _]]. done.
Qed.

Lemma includes_occurs s t : includes s t = true ↔ occurs_in t s.
Proof.
  unfold occurs_in. induction s as [|c s IH].
  - change (includes EmptyString t)
      with (String.prefix t EmptyString || false).
    rewrite orb_false_r, prefix_occurs. split.
    + intros [b Hb]. exists EmptyString, b. exact Hb.
    + intros ([|? a] & b & Hab); [eauto|discriminate].
  - change (includes (String c s) t)
      with (String.prefix t (String c s) || includes s t).
    rewrite orb_true_iff, prefix_occurs, IH. split.
    + intros [[b Hb]|(a & b & Hab)].
      * exists EmptyString, b. exact Hb.
      * exists (String c a), b. simpl. by rewrite Hab.
    + intros ([|c' a] & b & Hab).
      * left. eauto.
      * right. simpl in Hab. injection Hab as -> ->. eauto.
Qed.

Section DictionaryFacts.
Context `{Locale}.

(** C5: the index holds no word twice and is sorted by word under
    [localeCompare]; a word of the history is represented by its first
    occurrence, that is by the entry of the first record, in the order
    of the sequence (newest first), whose vocabulary holds it, with that
    record's language. *)
Theorem allVocab_is_index (items : list AnalysisResult) :
  (∀ a b, localeCompare a b ≤ 0 ∨ localeCompare b a ≤ 0) →
  (∀ a b c, localeCompare a b ≤ 0 → localeCompare b c ≤ 0 →
            localeCompare a c ≤ 0) →
  NoDup (words (allVocab items))
  ∧ StronglySorted by_word (allVocab items)
  ∧ (∀ newer it older before v after,
       items = newer ++ it :: older →
       Forall (λ r, ¬ holds_word (word v) r) newer →
       vocabulary it = before ++ v :: after →
       word v ∉ map word before →
       let e := {| item := v; tag_language := language it |} in
       e ∈ allVocab items
       ∧ ∀ e', e' ∈ allVocab items → word (item e') = word v → e' = e).
Proof.
  intros Htotal Htrans.
  assert (Hnodup : NoDup (words (allVocab items))).
  { unfold allVocab, words. rewrite merge_sort_Permutation.
    by apply dedupe_NoDup, NoDup_nil. }
  split; [exact Hnodup|]. split.
  - assert (Total by_word) by (intros a b; apply Htotal).
    assert (Transitive by_word) by (intros a b c; apply Htrans).
    apply StronglySorted_merge_sort; apply _.
  - intros newer it older before v after Hitems Hnewer Hvoc Hbefore e.
    assert (He : e ∈ allVocab items).
    { rewrite Hitems. unfold allVocab. rewrite merge_sort_Permutation.
      rewrite flatten_vocabulary_app. simpl. rewrite Hvoc, map_app. simpl.
      rewrite <- !app_assoc, app_assoc.
      apply dedupe_first; [by intros ?%elem_of_nil|].
      unfold words. rewrite map_app, elem_of_app. intros [Hw|Hw].
      - apply words_flatten_vocabulary in Hw.
        apply Exists_exists in Hw as (r & Hr & Hw).
        rewrite Forall_forall in Hnewer. by apply (Hnewer r).
      - rewrite map_map in Hw. done. }
    split; [exact He|]. intros e' He' Hword.
    by apply (same_word_same_entry (allVocab items)).
Qed.

Lemma filteredVocab_empty_term (all : list TaggedVocabulary) :
  toLowerCase EmptyString = EmptyString → filteredVocab EmptyString all = all.
Proof.
  intros Hempty. unfold filteredVocab.
  induction all as [|v l IH]; [reflexivity|].
  simpl. unfold matches at 1. rewrite Hempty, includes_empty. simpl.
  by rewrite IH.
Qed.

(** C6: the empty search term keeps every entry, in order; in general
    the search keeps, in order, the entries one of whose word, meaning
    or reading, lowered, contains the lowered term, so a term that
    lowers to the same string as an entry's word finds that entry. *)
Theorem filteredVocab_search (all : list TaggedVocabulary) :
  toLowerCase EmptyString = EmptyString →
  filteredVocab EmptyString all = all
  ∧ (∀ term, sublist (filteredVocab term all) all)
  ∧ (∀ term v,
       v ∈ filteredVocab term all
       ↔ v ∈ all
         ∧ (occurs_in (toLowerCase term) (toLowerCase (word (item v)))
            ∨ occurs_in (toLowerCase term) (toLowerCase (meaning (item v)))
            ∨ occurs_in (toLowerCase term) (toLowerCase (reading (item v)))))
  ∧ (∀ term v,
       v ∈ all → toLowerCase term = toLowerCase (word (item v)) →
       v ∈ filteredVocab term all).
Proof.
  intros Hempty.
  assert (Hspec : ∀ term v,
    v ∈ filteredVocab term all
    ↔ v ∈ all
      ∧ (occurs_in (toLowerCase term) (toLowerCase (word (item v)))
         ∨ occurs_in (toLowerCase term) (toLowerCase (meaning (item v)))
         ∨ occurs_in (toLowerCase term) (toLowerCase (reading (item v))))).
  { intros term v. unfold filteredVocab, matches.
    rewrite !list_elem_of_In, filter_In, !orb_true_iff, !includes_occurs.
    tauto. }
  split; [|split; [|split]].
  - by apply filteredVocab_empty_term.
  - intros term. apply filter_sublist.
  - exact Hspec.
  - intros term v Hv Hcase. apply Hspec. split; [exact Hv|]. left.
    rewrite Hcase. apply includes_occurs, includes_self.
Qed.

End DictionaryFacts.

Lemma compare_code_units_total a b :
  compare_code_units a b ≤ 0 ∨ compare_code_units b a ≤ 0.
Proof.
  unfold compare_code_units. rewrite (String.compare_antisym a b).
  destruct (String.compare b a); simpl; lia.
Qed.

Lemma compare_code_units_le a b :
  compare_code_units a b ≤ 0 ↔ a = b ∨ String_as_OT.lt a b.
Proof.
  unfold compare_code_units.
  destruct (String.compare a b) eqn:Hc.
  - apply String_as_OT.cmp_eq in Hc. split; [by left|lia].
  - apply String_as_OT.cmp_lt in Hc. split; [by right|lia].
  - split; [lia|]. intros [->|Hlt].
    + assert (String.compare b b = Eq) as Heq by by apply String_as_OT.cmp_eq.
      congruence.
    + apply String_as_OT.cmp_lt in Hlt. unfold String_as_OT.cmp in Hlt.
      congruence.
Qed.

Lemma compare_code_units_trans a b c :
  compare_code_units a b ≤ 0 → compare_code_units b c ≤ 0 →
  compare_code_units a c ≤ 0.
Proof.
  rewrite !compare_code_units_le.
  intros [->|Hab] [->|Hbc]; eauto.
  right. by apply (String_as_OT.lt_trans a b c).
Qed.

Lemma allVocab_is_index_witness :
  NoDup (words (allVocab (H := code_unit_locale) sample_history))
  ∧ StronglySorted (by_word (H := code_unit_locale))
      (allVocab (H := code_unit_locale) sample_history).
Proof.
  destruct (allVocab_is_index (H := code_unit_locale) sample_history
              compare_code_units_total compare_code_units_trans)
    as (Hnodup & Hsorted & _).
  split; [exact Hnodup|exact Hsorted].
Defined.

Lemma filteredVocab_search_witness :
  filteredVocab (H := code_unit_locale) EmptyString
    (allVocab (H := code_unit_locale) sample_history)
  = allVocab (H := code_unit_locale) sample_history.
Proof.
  apply (filteredVocab_search (H := code_unit_locale)
           (allVocab (H := code_unit_locale) sample_history)).
  reflexivity.
Defined.

Example allVocab_sample :
  map (λ e, (word (item e), reading (item e), tag_language e))
    (allVocab (H := code_unit_locale) sample_history)
  = [("iru", "iru", "Japanese (newer)");
     ("neko", "NEKO", "Japanese (newer)");
     ("neru", "neru", "Japanese")].
Proof. vm_compute. reflexivity. Qed.

Example filteredVocab_sample :
  map (λ e, word (item e))
    (filteredVocab (H := code_unit_locale) "NEKO"
       (allVocab (H := code_unit_locale) sample_history))
  = ["neko"].
Proof. vm_compute. reflexivity. Qed.

(** ** More on the handlers *)

Lemma fullResult_timestamp `{Platform} result now_id now_ts text :
  get_prop (fullResult result now_id now_ts text) "timestamp"
  = ret (Some (JNum now_ts)).
Proof. unfold fullResult, get_prop. by rewrite !obj_get_set. Qed.

Lemma fullResult_original `{Platform} result now_id now_ts text :
  get_prop (fullResult result now_id now_ts text) "original"
  = ret (Some (JStr text)).
Proof. unfold fullResult, get_prop. by rewrite !obj_get_set. Qed.

Lemma fullResult_other `{Platform} result now_id now_ts text k :
  k ≠ "id" → k ≠ "timestamp" → k ≠ "original" →
  get_prop (fullResult result now_id now_ts text) k
  = ret (obj_get k (spread_props result)).
Proof.
  intros H1 H2 H3. unfold fullResult, get_prop. rewrite !obj_get_set.
  by rewrite !(proj2 (String.eqb_neq _ _)).
Qed.

Lemma fullResult_has_id `{Platform} result now_id now_ts text :
  has_id (Number_toString now_id) (fullResult result now_id now_ts text)
  = true.
Proof.
  unfold fullResult, has_id. rewrite !obj_get_set. simpl.
  apply String.eqb_refl.
Qed.

Lemma fullResult_not_null `{Platform} result now_id now_ts text :
  fullResult result now_id now_ts text ≠ JNull.
Proof. done. Qed.

Lemma filter_filter_comm {A} (f g : A → bool) l :
  List.filter f (List.filter g l) = List.filter g (List.filter f l).
Proof.
  induction l as [|x l IH]; [reflexivity|]. simpl.
  destruct (f x) eqn:Hf, (g x) eqn:Hg; simpl; rewrite ?Hf, ?Hg, IH; done.
Qed.

Lemma filter_filter_same {A} (f : A → bool) l :
  List.filter f (List.filter f l) = List.filter f l.
Proof.
  induction l as [|x l IH]; [reflexivity|]. simpl.
  destruct (f x) eqn:Hf; simpl; rewrite ?Hf, IH; done.
Qed.

Lemma filter_cons_drop {A} (f : A → bool) x l :
  f x = false → List.filter f (x :: l) = List.filter f l.
Proof. intros Hx. simpl. by rewrite Hx. Qed.

Lemma filter_not_null (f : JSON → bool) l :
  Forall (λ item, item ≠ JNull) l →
  Forall (λ item, item ≠ JNull) (List.filter f l).
Proof.
  induction 1 as [|x l Hx Hl IH]; simpl; [constructor|].
  destruct (f x); [by constructor|done].
Qed.

Lemma array_filter_null f l :
  (∀ item, item ≠ JNull → ∃ b, f item = ret b) →
  f JNull = throw TypeError →
  JNull ∈ l → array_filter f l = throw TypeError.
Proof.
  intros Hok Hnull. induction l as [|x l IH]; [by intros ?%elem_of_nil|].
  intros Hin. simpl.
  assert (x = JNull ∨ x ≠ JNull) as [->|Hx]
    by (destruct x; (by left) || (by right)).
  - by rewrite Hnull.
  - destruct (Hok x Hx) as [b ->]. simpl.
    apply elem_of_cons in Hin as [?|Hin]; [done|].
    by rewrite (IH Hin).
Qed.

Lemma card_reads_no_array last :
  js_truthy last = true →
  (∀ gp, get_prop last "grammarPoints" ≠ ret (Some (JArr gp))) →
  card_reads last = throw TypeError.
Proof.
  intros Htruthy Hgp. unfold card_reads.
  destruct last as [| | | | |ps]; try done. simpl in *.
  destruct (obj_get "grammarPoints" ps) as [[| | | |gp|]|]; try done.
  by destruct (Hgp gp).
Qed.

Section MoreHandlerFacts.
Context `{Platform}.

Lemma handleDelete_history id w :
  Forall (λ item, item ≠ JNull) (history w) →
  ∃ w', handleDelete id true w = ret w'
        ∧ history w' = List.filter (λ item, negb (has_id id item)) (history w).
Proof.
  intros Hitems. unfold handleDelete.
  rewrite (array_filter_items id _ Hitems). simpl. eauto.
Qed.

(** X1: an analysis is all or nothing.  Either [analyzeSentence]
    returned and exactly one record, built from what it returned, is put
    in front of the history, with nothing logged or alerted; or it threw
    and the history and the storage are as before, the error is logged
    and one alert is shown.  In both cases the busy flag ends down and
    the tutor answer is untouched. *)
Theorem handleAnalyze_all_or_nothing (T : string)
    (response : result (option string)) (now_id now_ts : Z) (w : World) :
  let w' := handleAnalyze T response now_id now_ts w in
  isAnalyzing w' = false
  ∧ qaResult w' = qaResult w
  ∧ ((∃ result,
        analyzeSentence T response = ret result
        ∧ history w' = fullResult result now_id now_ts T :: history w
        ∧ console w' = console w
        ∧ alerts w' = alerts w)
     ∨ (∃ e,
          analyzeSentence T response = throw e
          ∧ history w' = history w
          ∧ localStorage w' = localStorage w
          ∧ console w' = console w ++ [(None, e)]
          ∧ length (alerts w') = S (length (alerts w)))).
Proof.
  cbv zeta.
  destruct (analyzeSentence T response) as [e|result] eqn:Hres.
  - rewrite (handleAnalyze_throws _ _ _ _ _ _ Hres).
    split; [done|]. split; [done|]. right. exists e.
    repeat split. simpl. rewrite length_app. simpl. lia.
  - rewrite (handleAnalyze_ok _ _ _ _ _ _ Hres).
    split; [done|]. split; [done|]. left. by exists result.
Qed.

(** X2: without an API key nothing is asked of the model: whatever the
    response would be, [handleAnalyze] leaves the history as it is and
    logs "API Key not found", and [handleAskTutor] leaves the tutor
    answer as it is. *)
Theorem no_api_key_no_result (text : string)
    (response : result (option string)) (now_id now_ts : Z) (w : World) :
  truthy API_KEY = None →
  history (handleAnalyze text response now_id now_ts w) = history w
  ∧ console (handleAnalyze text response now_id now_ts w)
    = console w ++ [(None, Error "API Key not found")]
  ∧ qaResult (handleAskTutor text response now_id now_ts w) = qaResult w
  ∧ history (handleAskTutor text response now_id now_ts w) = history w.
Proof.
  intros Hkey.
  assert (Hres : analyzeSentence text response
                 = throw (Error "API Key not found")).
  { unfold analyzeSentence, getAI. by rewrite Hkey. }
  rewrite (handleAnalyze_throws _ _ _ _ _ _ Hres).
  split; [done|]. split; [done|].
  unfold handleAskTutor.
  destruct (context_of (history (setIsAnalyzing true w))) as [e|context];
    simpl; [done|].
  unfold askTutor, getAI. by rewrite Hkey.
Qed.

(** X3: the response is not checked against the schema, and the three
    properties [handleAnalyze] assigns win over same-named properties of
    the response: whatever value the response parsed to, the new record
    has the [id], [timestamp] and [original] of this call, and every
    other property of the response as it came. *)
Theorem handleAnalyze_overrides (T : string)
    (response : result (option string)) (result : JSON)
    (now_id now_ts : Z) (w : World) :
  analyzeSentence T response = ret result →
  ∃ record,
    history (handleAnalyze T response now_id now_ts w) = record :: history w
    ∧ get_prop record "id" = ret (Some (JStr (Number_toString now_id)))
    ∧ get_prop record "timestamp" = ret (Some (JNum now_ts))
    ∧ get_prop record "original" = ret (Some (JStr T))
    ∧ ∀ k, k ≠ "id" → k ≠ "timestamp" → k ≠ "original" →
           get_prop record k = ret (obj_get k (spread_props result)).
Proof.
  intros Hres. exists (fullResult result now_id now_ts T).
  rewrite (handleAnalyze_ok _ _ _ _ _ _ Hres).
  split; [done|]. split; [apply fullResult_id|].
  split; [apply fullResult_timestamp|]. split; [apply fullResult_original|].
  intros k. apply fullResult_other.
Qed.

(** X4: a tutor query, whatever its outcome, leaves the history, the
    stored snapshot and the tab as they are, and ends with the busy flag
    down. *)
Theorem handleAskTutor_keeps_history (question : string)
    (response : result (option string)) (now_id now_ts : Z) (w : World) :
  let w' := handleAskTutor question response now_id now_ts w in
  history w' = history w
  ∧ localStorage w' = localStorage w
  ∧ activeTab w' = activeTab w
  ∧ isAnalyzing w' = false.
Proof.
  cbv zeta. unfold handleAskTutor.
  destruct (context_of (history (setIsAnalyzing true w))) as [e|context];
    simpl; [done|].
  destruct (askTutor question context response); done.
Qed.

(** X5: the sentence a tutor answer relates to is the [original] of the
    newest record at the time of the question, and is undefined when the
    history is empty; the answer carries the question as asked and the
    two clock readings of the call. *)
Theorem handleAskTutor_relatedSentence (question text : string)
    (now_id now_ts : Z) (w : World) :
  is_Some (truthy API_KEY) →
  Forall (λ item, item ≠ JNull) (history w) →
  ∃ answer related,
    qaResult (handleAskTutor question (ret (Some text)) now_id now_ts w)
    = Some (QaResult.mk (Number_toString now_id) now_ts question answer
              related)
    ∧ match history w with
      | [] => related = None
      | item :: _ => get_prop item "original" = ret related
      end.
Proof.
  intros [key Hkey] Hitems. unfold handleAskTutor.
  assert (Hctx : ∃ related,
    context_of (history w) = ret related
    ∧ match history w with
      | [] => related = None
      | item :: _ => get_prop item "original" = ret related
      end).
  { destruct (history w) as [|item rest]; simpl; [by eexists|].
    apply Forall_cons in Hitems as [Hitem _].
    destruct item; try done; by eexists. }
  destruct Hctx as (related & Hctx & Hrel).
  simpl history. rewrite Hctx. simpl.
  unfold askTutor, getAI. rewrite Hkey. simpl. eauto.
Qed.

(** X6: deleting the id of the record just appended undoes the append:
    the history is the earlier one without the records that already
    carried that id, so it is the earlier history itself when the id is
    new. *)
Theorem append_then_delete (T : string) (response : result (option string))
    (result : JSON) (now_id now_ts : Z) (w : World) :
  Forall (λ item, item ≠ JNull) (history w) →
  analyzeSentence T response = ret result →
  ∃ w'',
    handleDelete (Number_toString now_id) true
      (handleAnalyze T response now_id now_ts w) = ret w''
    ∧ history w''
      = List.filter (λ item, negb (has_id (Number_toString now_id) item))
          (history w)
    ∧ (Forall (λ item, has_id (Number_toString now_id) item = false)
         (history w) →
       history w'' = history w).
Proof.
  intros Hitems Hres.
  destruct (handleDelete_history (Number_toString now_id)
              (handleAnalyze T response now_id now_ts w))
    as (w'' & Hdel & Hhist).
  { rewrite (handleAnalyze_ok _ _ _ _ _ _ Hres). by constructor. }
  exists w''. split; [exact Hdel|].
  rewrite Hhist, (handleAnalyze_ok _ _ _ _ _ _ Hres).
  change (history (setIsAnalyzing false (saveEffect (setHistory ?f ?w0))))
    with (f (history w0)).
  rewrite filter_cons_drop by (by rewrite fullResult_has_id).
  split; [done|]. apply filter_none.
Qed.

(** X7: deleting is idempotent and deletions commute: a second delete
    of the same id changes nothing in the history, and two ids can be
    deleted in either order. *)
Theorem handleDelete_twice_and_order (a b : string) (w : World) :
  Forall (λ item, item ≠ JNull) (history w) →
  ∃ wa waa wab wb wba,
    handleDelete a true w = ret wa
    ∧ handleDelete a true wa = ret waa
    ∧ handleDelete b true wa = ret wab
    ∧ handleDelete b true w = ret wb
    ∧ handleDelete a true wb = ret wba
    ∧ history waa = history wa
    ∧ history wab = history wba.
Proof.
  intros Hitems.
  destruct (handleDelete_history a w Hitems) as (wa & Ha & Hha).
  destruct (handleDelete_history b w Hitems) as (wb & Hb & Hhb).
  assert (Hwa : Forall (λ item, item ≠ JNull) (history wa))
    by (rewrite Hha; by apply filter_not_null).
  assert (Hwb : Forall (λ item, item ≠ JNull) (history wb))
    by (rewrite Hhb; by apply filter_not_null).
  destruct (handleDelete_history a wa Hwa) as (waa & Haa & Hhaa).
  destruct (handleDelete_history b wa Hwa) as (wab & Hab & Hhab).
  destruct (handleDelete_history a wb Hwb) as (wba & Hba & Hhba).
  exists wa, waa, wab, wb, wba. repeat split; try done.
  - by rewrite Hhaa, Hha, filter_filter_same.
  - by rewrite Hhab, Hhba, Hha, Hhb, filter_filter_comm.
Qed.

(** X8: a [null] among the records breaks both handlers that read the
    records: a confirmed delete throws a [TypeError], whatever the id,
    and with the [null] in front a tutor query is given up before the
    model is asked: the answer stays as it was and the [TypeError] is
    logged. *)
Theorem null_record_breaks_handlers (id question : string)
    (response : result (option string)) (now_id now_ts : Z) (w : World) :
  JNull ∈ history w →
  handleDelete id true w = throw TypeError
  ∧ (∀ rest, history w = JNull :: rest →
       let w' := handleAskTutor question response now_id now_ts w in
       qaResult w' = qaResult w
       ∧ console w' = console w ++ [(None, TypeError)]).
Proof.
  intros Hnull. split.
  - unfold handleDelete. rewrite array_filter_null; try done.
    intros item Hitem. rewrite keep_item by done. eauto.
  - intros rest Hhist. cbv zeta. unfold handleAskTutor. simpl history.
    by rewrite Hhist.
Qed.

(** X9: mounting over a storage without a snapshot, or with an empty
    one, starts from the empty history, logs nothing, writes the text of
    the empty array under the key and leaves the other keys of the
    storage alone. *)
Theorem startup_without_snapshot (storage : gmap string string) :
  truthy (storage !! "lingolog_history") = None →
  ∃ w,
    startup storage = Mounted w
    ∧ history w = []
    ∧ qaResult w = None
    ∧ console w = []
    ∧ alerts w = []
    ∧ localStorage w
      = <["lingolog_history" := JSON_stringify (JArr [])]> storage.
Proof.
  intros Hnone. unfold startup, loadEffect. simpl localStorage.
  rewrite Hnone. eexists. split; [reflexivity|]. done.
Qed.

(** X10: a stored text that parses to an array is taken as the new
    history unchecked, and nothing is logged.  When the newest element
    of the array is truthy and holds no array under [grammarPoints], the
    render that follows throws a [TypeError] while it builds the
    analysis card; by then the first save effect has replaced the stored
    text by the text of the empty array. *)
Theorem snapshot_adopted_unchecked (storage : gmap string string)
    (saved : string) (l : list JSON) :
  storage !! "lingolog_history" = Some saved →
  saved ≠ EmptyString →
  JSON_parse saved = Some (JArr l) →
  loadEffect (mount storage) = (mount storage, Some (JArr l))
  ∧ ∀ last rest,
      l = last :: rest →
      js_truthy last = true →
      (∀ gp, get_prop last "grammarPoints" ≠ ret (Some (JArr gp))) →
      let w := setHistory (λ _, l) (saveEffect (mount storage)) in
      analyze_tab_reads w = Some (throw TypeError)
      ∧ localStorage w !! "lingolog_history"
        = Some (JSON_stringify (JArr [])).
Proof.
  intros Hsaved Hne Hparse. split.
  - unfold loadEffect. simpl localStorage. rewrite Hsaved.
    destruct saved as [|c r]; [done|]. simpl. by rewrite Hparse.
  - intros last rest -> Htruthy Hgp. cbv zeta. split.
    + unfold analyze_tab_reads, display, showQa, lastResult. simpl.
      rewrite Htruthy. f_equal. by apply card_reads_no_array.
    + apply lookup_insert_eq.
Qed.

(** X11: between two handlers the busy flag is down: it is down after
    the mount, each of the two asynchronous handlers puts it down at its
    end, and a delete does not touch it. *)
Theorem reachable_not_busy (w : World) :
  reachable w → isAnalyzing w = false.
Proof.
  induction 1 as [storage w Hstart
                 |w text response now_id now_ts _ _
                 |w question response now_id now_ts _ _
                 |w id confirmed w' _ IH Hdel].
  - unfold startup, loadEffect in Hstart.
    destruct (truthy _) as [saved|]; simpl in Hstart.
    + destruct (JSON_parse saved) as [[| | | |l|]|]; simpl in Hstart;
        try discriminate; by injection Hstart as <-.
    + by injection Hstart as <-.
  - reflexivity.
  - reflexivity.
  - unfold handleDelete in Hdel. destruct confirmed.
    + destruct (array_filter _ (history w)) as [e|kept]; [discriminate|].
      by injection Hdel as <-.
    + by injection Hdel as <-.
Qed.

End MoreHandlerFacts.

(** ** [speak] and [AnalyzeTab] *)

Lemma first_match_here table pre name code post l fallback :
  table = pre ++ (name, code) :: post →
  occurs_in name l →
  Forall (λ e, ¬ occurs_in e.1 l) pre →
  first_match table l fallback = code.
Proof.
  intros -> Hocc%includes_occurs Hpre.
  induction Hpre as [|[n c] pre Hn Hpre IH]; simpl.
  - by rewrite Hocc.
  - simpl in Hn. rewrite <- includes_occurs in Hn.
    apply not_true_is_false in Hn. by rewrite Hn.
Qed.

Lemma first_match_none table l fallback :
  Forall (λ e, ¬ occurs_in e.1 l) table →
  first_match table l fallback = fallback.
Proof.
  induction 1 as [|[n c] table Hn Htable IH]; simpl; [done|].
  simpl in Hn. rewrite <- includes_occurs in Hn.
  apply not_true_is_false in Hn. by rewrite Hn.
Qed.

Section SpeakFacts.
Context `{Locale}.

(** X12: [speak] picks the locale of the first language name of its
    list that occurs in the lowered label, so a label that names two
    languages gets the one listed first; a label that names none of
    them gets "en-US". *)
Theorem speech_lang_first_match (languageName : option string) :
  let l := toLowerCase (match truthy languageName with
                        | Some name => name
                        | None => EmptyString
                        end) in
  (∀ pre name code post,
     speech_table = pre ++ (name, code) :: post →
     occurs_in name l →
     Forall (λ e, ¬ occurs_in e.1 l) pre →
     speech_lang languageName = code)
  ∧ (Forall (λ e, ¬ occurs_in e.1 l) speech_table →
     speech_lang languageName = "en-US").
Proof.
  intros l.
  assert (Htab : speech_lang languageName = first_match speech_table l "en-US")
    by reflexivity.
  rewrite Htab. split.
  - intros pre name code post. apply first_match_here.
  - apply first_match_none.
Qed.

End SpeakFacts.

Lemma trimStart_blank s : blank s = true → trimStart s = EmptyString.
Proof.
  unfold blank. induction s as [|c s IH]; simpl; [done|].
  intros [Hc Hs]%andb_true_iff. rewrite Hc. by apply IH.
Qed.

Lemma trimStart_not_blank s :
  blank s = false →
  ∃ c r, trimStart s = String c r ∧ js_whitespace c = false.
Proof.
  unfold blank. induction s as [|c s IH]; simpl; [done|].
  destruct (js_whitespace c) eqn:Hc; simpl; [exact IH|eauto].
Qed.

Lemma trimEnd_not_empty c r :
  js_whitespace c = false → trimEnd (String c r) ≠ EmptyString.
Proof.
  intros Hc. simpl. rewrite Hc. by destruct (trimEnd r).
Qed.

Lemma trim_empty_iff s : trim s = EmptyString ↔ blank s = true.
Proof.
  unfold trim. split.
  - intros Htrim. destruct (blank s) eqn:Hb; [done|].
    destruct (trimStart_not_blank s Hb) as (c & r & Heq & Hc).
    rewrite Heq in Htrim. by apply trimEnd_not_empty in Htrim.
  - intros Hb. by rewrite (trimStart_blank s Hb).
Qed.

Section AnalyzeTabFacts.
Context `{Platform}.

(** X13: submitting an input of white space only does nothing at all:
    the state is the one before, in either mode and whatever the model
    would have answered. *)
Theorem handleSubmit_blank (input : string) (m : mode)
    (response : result (option string)) (now_id now_ts : Z) (w : World) :
  blank input = true →
  handleSubmit input m response now_id now_ts w = w.
Proof.
  intros Hb. unfold handleSubmit. by rewrite (proj2 (trim_empty_iff input) Hb).
Qed.

(** X14: only the emptiness test trims: an input that is not blank is
    analysed and stored as typed, white space around it included, and in
    tutor mode it is the question as typed. *)
Theorem handleSubmit_as_typed (input : string)
    (response : result (option string)) (result : JSON)
    (now_id now_ts : Z) (w : World) :
  blank input = false →
  analyzeSentence input response = ret result →
  (∃ record,
     history (handleSubmit input analysis response now_id now_ts w)
     = record :: history w
     ∧ get_prop record "original" = ret (Some (JStr input)))
  ∧ handleSubmit input qa response now_id now_ts w
    = handleAskTutor input response now_id now_ts w.
Proof.
  intros Hb Hres.
  assert (Hne : trim input ≠ EmptyString).
  { intros Htrim%trim_empty_iff. congruence. }
  unfold handleSubmit. destruct (trim input); [done|]. split; [|done].
  rewrite (handleAnalyze_ok _ _ _ _ _ _ Hres).
  eexists. split; [reflexivity|]. apply fullResult_original.
Qed.

(** X15: after an analysis has completed, its record is the card on
    display, unless the tutor answer in the state carries a timestamp
    strictly greater than the record's: then the answer stays on
    display. *)
Theorem display_after_analyze (T : string)
    (response : result (option string)) (result : JSON)
    (now_id now_ts : Z) (w : World) :
  analyzeSentence T response = ret result →
  display (handleAnalyze T response now_id now_ts w)
  = Some (match qaResult w with
          | Some q =>
              if now_ts <? QaResult.timestamp q then TutorAnswer q
              else Analysis (fullResult result now_id now_ts T)
          | None => Analysis (fullResult result now_id now_ts T)
          end).
Proof.
  intros Hres. rewrite (handleAnalyze_ok _ _ _ _ _ _ Hres).
  unfold display, showQa.
  change (qaResult (setIsAnalyzing false (saveEffect (setHistory ?f ?w0))))
    with (qaResult w).
  change (lastResult (setIsAnalyzing false
            (saveEffect (setHistory ?f (setIsAnalyzing true w)))))
    with (Some (fullResult result now_id now_ts T)).
  destruct (qaResult w) as [q|]; [|reflexivity].
  change (js_truthy (fullResult result now_id now_ts T)) with true.
  cbv iota. rewrite fullResult_timestamp. simpl.
  by destruct (now_ts <? QaResult.timestamp q).
Qed.

(** X16: a tutor answer is put on display only if its timestamp is
    strictly greater than the timestamp of the newest record: an answer
    that arrives at the same clock reading, or at an earlier one, is
    stored but the record stays on display.  With an empty history the
    answer is displayed. *)
Theorem display_after_ask (question text : string) (now_id now_ts : Z)
    (w : World) :
  is_Some (truthy API_KEY) →
  (history w = [] ∨
   ∃ ps ts rest, history w = JObj ps :: rest
                 ∧ obj_get "timestamp" ps = Some (JNum ts)) →
  ∃ q,
    qaResult (handleAskTutor question (ret (Some text)) now_id now_ts w)
    = Some q
    ∧ QaResult.timestamp q = now_ts
    ∧ display (handleAskTutor question (ret (Some text)) now_id now_ts w)
      = Some (match history w with
              | JObj ps :: _ =>
                  match obj_get "timestamp" ps with
                  | Some (JNum ts) =>
                      if ts <? now_ts then TutorAnswer q
                      else Analysis (JObj ps)
                  | _ => NoCard
                  end
              | _ => TutorAnswer q
              end).
Proof.
  intros [key Hkey] Hhist. unfold handleAskTutor.
  assert (Hctx : ∃ related, context_of (history w) = ret related).
  { destruct Hhist as [->|(ps & ts & rest & -> & _)]; simpl; eauto. }
  destruct Hctx as [related Hctx]. simpl history. rewrite Hctx. simpl.
  unfold askTutor, getAI. rewrite Hkey. simpl.
  eexists. split; [reflexivity|]. split; [reflexivity|].
  unfold display, showQa, lastResult. simpl.
  destruct Hhist as [->|(ps & ts & rest & -> & Hts)]; [reflexivity|].
  cbn [js_truthy get_prop ret]. rewrite Hts. cbn [number_gt].
  by destruct (ts <? now_ts).
Qed.

End AnalyzeTabFacts.

(** ** [MarkdownText] *)

Lemma append_cons c s t : String c s +:+ t = String c (s +:+ t).
Proof. reflexivity. Qed.

Lemma append_nil_l t : EmptyString +:+ t = t.
Proof. reflexivity. Qed.

Ltac string_simpl := rewrite ?append_cons, ?append_nil_l.

Lemma append_nil_r s : s +:+ EmptyString = s.
Proof. induction s as [|c s IH]; string_simpl; [done|]. by rewrite IH. Qed.

Lemma append_assoc s1 s2 s3 : (s1 +:+ s2) +:+ s3 = s1 +:+ (s2 +:+ s3).
Proof. induction s1 as [|c s1 IH]; string_simpl; [done|]. by rewrite IH. Qed.

Lemma length_append s1 s2 :
  String.length (s1 +:+ s2) = (String.length s1 + String.length s2)%nat.
Proof.
  induction s1 as [|c s1 IH]; string_simpl; simpl; [done|]. by rewrite IH.
Qed.

Lemma rev_app_append s1 s2 :
  String.rev_app s1 s2 = String.rev_app s1 EmptyString +:+ s2.
Proof.
  revert s2. induction s1 as [|c s1 IH]; intros s2; simpl; [done|].
  rewrite (IH (String c s2)), (IH (String c EmptyString)).
  by rewrite append_assoc.
Qed.

Lemma rev_app_rev_app a b c :
  String.rev_app (String.rev_app a b) c = String.rev_app b (a +:+ c).
Proof.
  revert b c. induction a as [|x a IH]; intros b c; simpl; [done|].
  by rewrite IH.
Qed.

Lemma rev_rev s : String.rev (String.rev s) = s.
Proof.
  unfold String.rev. rewrite rev_app_rev_app. simpl. apply append_nil_r.
Qed.

Lemma rev_cons c cur s :
  String.rev (String c cur) +:+ s = String.rev cur +:+ String c s.
Proof.
  unfold String.rev. simpl.
  rewrite (rev_app_append cur (String c EmptyString)).
  by rewrite append_assoc.
Qed.

Lemma substring_whole s : String.substring 0 (String.length s) s = s.
Proof. induction s as [|c s IH]; simpl; [done|]. by rewrite IH. Qed.

Lemma substring_prefix p q :
  String.substring 0 (String.length p) (p +:+ q) = p.
Proof.
  induction p as [|c p IH]; simpl; [by destruct q|]. by rewrite IH.
Qed.

Lemma substring_skip p q m :
  String.substring (String.length p) m (p +:+ q) = String.substring 0 m q.
Proof. induction p as [|c p IH]; simpl; [done|]. exact IH. Qed.

Lemma close_bold_cons c c' rest :
  close_bold (String c (String c' rest))
  = if Ascii.eqb c star && Ascii.eqb c' star then Some (EmptyString, rest)
    else if is_line_terminator c then None
    else match close_bold (String c' rest) with
         | Some (inner, rest') => Some (String c inner, rest')
         | None => None
         end.
Proof. reflexivity. Qed.

Lemma close_bold_spec s inner rest :
  close_bold s = Some (inner, rest) →
  s = inner +:+ String star (String star rest).
Proof.
  revert inner. induction s as [|c r IH]; intros inner; simpl; [done|].
  destruct r as [|c' rest']; [done|].
  destruct (Ascii.eqb c star && Ascii.eqb c' star) eqn:Hstars.
  - intros [= <- <-].
    apply andb_true_iff in Hstars as [->%Ascii.eqb_eq ->%Ascii.eqb_eq]. done.
  - destruct (is_line_terminator c); [done|].
    destruct (close_bold (String c' rest')) as [[inner' rest'']|] eqn:Hc;
      [|done].
    intros [= <- <-]. rewrite append_cons. f_equal. by apply IH.
Qed.

Lemma match_bold_spec s inner rest :
  match_bold s = Some (inner, rest) →
  s = String star (String star inner) +:+ String star (String star rest).
Proof.
  destruct s as [|c [|c' r]]; simpl; try done.
  destruct (Ascii.eqb c star && Ascii.eqb c' star) eqn:Hstars; [|done].
  apply andb_true_iff in Hstars as [->%Ascii.eqb_eq ->%Ascii.eqb_eq].
  intros Hclose%close_bold_spec. by rewrite Hclose.
Qed.

Lemma match_bold_shorter s inner rest :
  match_bold s = Some (inner, rest) →
  (String.length rest < String.length s)%nat.
Proof.
  intros ->%match_bold_spec. simpl. rewrite length_append. simpl. lia.
Qed.

Lemma match_bold_includes s inner rest :
  match_bold s = Some (inner, rest) → includes s "**" = true.
Proof.
  intros ->%match_bold_spec. string_simpl. simpl. by destruct (inner +:+ _).
Qed.

Lemma match_bold_not_star c r :
  c ≠ star → match_bold (String c r) = None.
Proof.
  intros Hc. destruct r as [|c' r]; simpl; [done|].
  by rewrite (proj2 (Ascii.eqb_neq c star) Hc).
Qed.

Lemma split_bold_from_pieces fuel cur s :
  foldr String.append EmptyString (split_bold_from fuel cur s)
  = String.rev cur +:+ s.
Proof.
  revert cur s. induction fuel as [|fuel IH]; intros cur s; simpl.
  - apply append_nil_r.
  - destruct s as [|c r]; [simpl; by rewrite !append_nil_r|].
    destruct (match_bold (String c r)) as [[inner rest]|] eqn:Hm.
    + cbn [foldr]. rewrite IH. apply match_bold_spec in Hm. rewrite Hm.
      unfold String.rev at 2. simpl String.rev_app. string_simpl.
      by rewrite !append_assoc.
    + rewrite IH. apply rev_cons.
Qed.

Lemma split_bold_from_fuel f1 f2 cur s :
  (String.length s ≤ f1)%nat → (String.length s ≤ f2)%nat →
  split_bold_from f1 cur s = split_bold_from f2 cur s.
Proof.
  revert f2 cur s. induction f1 as [|f1 IH]; intros f2 cur s H1 H2.
  - destruct s; [|simpl in H1; lia].
    destruct f2; simpl; by rewrite ?append_nil_r.
  - destruct s as [|c r].
    { destruct f2; simpl; by rewrite ?append_nil_r. }
    destruct f2 as [|f2]; [simpl in H2; lia|].
    cbn [split_bold_from].
    destruct (match_bold (String c r)) as [[inner rest]|] eqn:Hm.
    + apply match_bold_shorter in Hm.
      rewrite (IH f2); [done| |]; simpl in *; lia.
    + apply IH; simpl in *; lia.
Qed.

Lemma split_bold_from_no_stars fuel cur s :
  includes s "**" = false →
  split_bold_from fuel cur s = [String.rev cur +:+ s].
Proof.
  revert cur s. induction fuel as [|fuel IH]; intros cur s Hno; [done|].
  destruct s as [|c r]; [simpl; by rewrite append_nil_r|].
  cbn [split_bold_from].
  destruct (match_bold (String c r)) as [[inner rest]|] eqn:Hm.
  - apply match_bold_includes in Hm. congruence.
  - rewrite IH, rev_cons; [done|].
    change (includes (String c r) "**")
      with (String.prefix "**" (String c r) || includes r "**") in Hno.
    by apply orb_false_iff in Hno as [_ Hno].
Qed.

Lemma free_of_cons c x s :
  free_of c (String x s) → x ≠ c ∧ free_of c s.
Proof.
  unfold free_of. simpl. destruct (Ascii.eqb_spec x c); [lia|].
  intros Hs. split; [done|lia].
Qed.

Lemma split_bold_from_plain fuel cur a t :
  free_of star a → (String.length a ≤ fuel)%nat →
  (t = EmptyString → String.length a < fuel)%nat →
  split_bold_from fuel cur (a +:+ t)
  = split_bold_from (fuel - String.length a) (String.rev_app a cur) t.
Proof.
  revert fuel cur. induction a as [|x a IH]; intros fuel cur Hfree Hfuel Ht.
  - simpl. by rewrite Nat.sub_0_r.
  - apply free_of_cons in Hfree as [Hx Hfree].
    destruct fuel as [|fuel]; [simpl in Hfuel; lia|].
    rewrite append_cons. cbn [split_bold_from].
    rewrite (match_bold_not_star x _ Hx).
    rewrite IH; [done|done|simpl in Hfuel; lia|].
    intros Htnil. specialize (Ht Htnil). simpl in Ht. lia.
Qed.

Lemma close_bold_inner inner b :
  free_of star inner → one_line inner →
  close_bold (inner +:+ String star (String star b)) = Some (inner, b).
Proof.
  unfold one_line. induction inner as [|x i IH]; intros Hfree Hline.
  - reflexivity.
  - apply free_of_cons in Hfree as [Hx Hfree].
    simpl in Hline. apply andb_true_iff in Hline as [Hxl Hline].
    apply negb_true_iff in Hxl.
    specialize (IH Hfree Hline).
    rewrite append_cons.
    remember (i +:+ String star (String star b)) as r eqn:Hr.
    destruct r as [|c' rest]; [by destruct i|].
    rewrite close_bold_cons.
    rewrite (proj2 (Ascii.eqb_neq x star) Hx), Hxl. cbn [andb]. cbv iota.
    by rewrite IH.
Qed.

Lemma split_char_cons sep s : ∃ h t, split_char sep s = h :: t.
Proof.
  induction s as [|c s (h & t & IH)]; simpl; [eauto|].
  destruct (Ascii.eqb c sep); [eauto|]. rewrite IH. eauto.
Qed.

Lemma concat_cons2 sep x y l :
  String.concat sep (x :: y :: l) = x +:+ sep +:+ String.concat sep (y :: l).
Proof. reflexivity. Qed.

Lemma split_char_join sep s :
  String.concat (String sep EmptyString) (split_char sep s) = s.
Proof.
  induction s as [|c s IH]; [reflexivity|].
  cbn [split_char].
  destruct (split_char_cons sep s) as (h & t & Hs). rewrite Hs in *.
  destruct (Ascii.eqb_spec c sep) as [->|Hne].
  - rewrite concat_cons2. string_simpl. by rewrite IH.
  - destruct t as [|y l].
    + simpl in *. by rewrite IH.
    + rewrite concat_cons2 in *. rewrite append_cons. by rewrite IH.
Qed.

Lemma split_char_length sep s :
  length (split_char sep s) = S (count_char sep s).
Proof.
  induction s as [|c s IH]; [reflexivity|]. simpl.
  destruct (split_char_cons sep s) as (h & t & Hs). rewrite Hs in *.
  destruct (Ascii.eqb c sep); simpl in *; lia.
Qed.

Lemma startsWith_stars s :
  startsWith "**" (String star (String star s)) = true.
Proof. unfold startsWith. simpl. by destruct s. Qed.

Lemma render_part_bold inner :
  render_part (String star (String star inner)
               +:+ String star (String star EmptyString))
  = Strong inner.
Proof.
  unfold render_part.
  change (String star (String star inner) +:+ ?t)
    with (String star (String star (inner +:+ t))).
  rewrite startsWith_stars.
  assert (Hlen : String.length (String star (String star (inner +:+ "**")))
                 = (String.length inner + 4)%nat).
  { simpl. rewrite length_append. simpl. lia. }
  assert (Hends : endsWith "**" (String star (String star (inner +:+ "**")))
                  = true).
  { unfold endsWith. apply andb_true_iff. split.
    - apply Nat.leb_le. rewrite Hlen. simpl. lia.
    - rewrite Hlen.
      replace (String.length inner + 4 - String.length "**")%nat
        with (String.length (String star (String star inner)))
        by (simpl; lia).
      change (String star (String star (inner +:+ "**")))
        with (String star (String star inner) +:+ "**").
      by rewrite substring_skip. }
  change (String star (String star EmptyString)) with "**" in *.
  rewrite Hends. simpl andb. cbv iota. f_equal.
  unfold slice. rewrite Hlen.
  change (2 <? 0) with false. change (-2 <? 0) with true. cbv iota.
  replace (Z.to_nat (Z.min 2 (Z.of_nat (String.length inner + 4))))
    with 2%nat by lia.
  replace (Z.to_nat (Z.max (Z.of_nat (String.length inner + 4) + -2) 0
                     - Z.min 2 (Z.of_nat (String.length inner + 4))))
    with (String.length inner) by lia.
  simpl. apply substring_prefix.
Qed.

Lemma startsWith_cons_neq c d p s :
  c ≠ d → startsWith (String c p) (String d s) = false.
Proof.
  intros Hcd. unfold startsWith. cbn [String.prefix].
  by destruct (ascii_dec c d).
Qed.

Lemma split_bold_from_bold fuel cur inner b :
  free_of star inner → one_line inner →
  split_bold_from (S fuel) cur
    (String star (String star (inner +:+ String star (String star b))))
  = String.rev cur
      :: (String star (String star inner)
            +:+ String star (String star EmptyString))
      :: split_bold_from fuel EmptyString b.
Proof.
  intros Hfree Hline. cbn [split_bold_from].
  change (match_bold (String star (String star ?r))) with (close_bold r).
  by rewrite (close_bold_inner inner b Hfree Hline).
Qed.

Lemma startsWith_append p s : startsWith p (p +:+ s) = true.
Proof.
  unfold startsWith. induction p as [|c p IH]; [by destruct s|].
  rewrite append_cons. cbn [String.prefix].
  by destruct (ascii_dec c c).
Qed.

Lemma substring_from_append p s :
  substring_from (String.length p) (p +:+ s) = s.
Proof.
  unfold substring_from. rewrite length_append.
  replace (String.length p + String.length s - String.length p)%nat
    with (String.length s) by lia.
  induction p as [|c p IH]; [apply substring_whole|].
  rewrite append_cons. exact IH.
Qed.

Lemma render_part_plain a :
  free_of star a → render_part a = Plain a.
Proof.
  intros Hfree. unfold render_part.
  destruct a as [|c a]; [reflexivity|].
  apply free_of_cons in Hfree as [Hc _].
  rewrite startsWith_cons_neq; [done|].
  intros Heq. by apply Hc.
Qed.

(** X17: [MarkdownText] makes one block for each line of the text, the
    lines being what lies between the newline characters: there is one
    block more than there are newlines, and joining the lines with
    newlines gives the text back. *)
Theorem MarkdownText_lines (text : string) :
  length (MarkdownText text) = S (count_char newline text)
  ∧ String.concat (String newline EmptyString) (split_char newline text)
    = text.
Proof.
  split.
  - unfold MarkdownText. rewrite length_map. apply split_char_length.
  - apply split_char_join.
Qed.

(** X18: splitting a line at its bold runs loses nothing: the pieces,
    taken in order, make up the line. *)
Theorem split_bold_pieces (line : string) :
  foldr String.append EmptyString (split_bold line) = line.
Proof. unfold split_bold. by rewrite split_bold_from_pieces. Qed.

(** X19: a line that starts with a dash or a star and a space is a
    bullet item, and the rest of the line is its text as it stands: in a
    bullet, stars are not read as bold. *)
Theorem render_line_bullet (rest : string) :
  render_line ("- " +:+ rest) = Bullet rest
  ∧ render_line ("* " +:+ rest) = Bullet rest.
Proof.
  unfold render_line. split.
  - rewrite startsWith_append. cbn [orb].
    exact (f_equal Bullet (substring_from_append "- " rest)).
  - rewrite (startsWith_append "* " rest), orb_true_r.
    exact (f_equal Bullet (substring_from_append "* " rest)).
Qed.

(** X20: a line without two stars in a row that is not a bullet is one
    paragraph with the line as its only, plain, run. *)
Theorem render_line_plain (line : string) :
  includes line "**" = false →
  startsWith "- " line = false →
  startsWith "* " line = false →
  render_line line = Paragraph [Plain line].
Proof.
  intros Hno Hdash Hstar. unfold render_line, split_bold.
  rewrite Hdash, Hstar. simpl orb. cbv iota.
  rewrite (split_bold_from_no_stars _ _ _ Hno). change (String.rev EmptyString +:+ line) with line. cbn [map].
  unfold render_part.
  assert (Hs : startsWith "**" line = false).
  { destruct line as [|c r]; [done|].
    change (includes (String c r) "**")
      with (String.prefix "**" (String c r) || includes r "**") in Hno.
    by apply orb_false_iff in Hno as [Hno _]. }
  by rewrite Hs.
Qed.

(** X21: text between two pairs of stars is a bold run, the text
    before it a plain run, and what follows is split in the same way:
    for [a] and [inner] without stars and [inner] on one line, the line
    [a**inner**b] is the paragraph of [a], plain, [inner], bold, and the
    runs of [b]. *)
Theorem render_line_bold (a inner b : string) :
  free_of star a → free_of star inner → one_line inner →
  startsWith "- " a = false →
  split_bold (a +:+ "**" +:+ inner +:+ "**" +:+ b)
  = a :: ("**" +:+ inner +:+ "**") :: split_bold b
  ∧ render_line (a +:+ "**" +:+ inner +:+ "**" +:+ b)
    = Paragraph (Plain a :: Strong inner :: map render_part (split_bold b)).
Proof.
  intros Ha Hinner Hline Hdash.
  set (t := "**" +:+ inner +:+ "**" +:+ b).
  assert (Hsplit :
    split_bold (a +:+ t) = a :: ("**" +:+ inner +:+ "**") :: split_bold b).
  { unfold split_bold. rewrite length_append.
    rewrite split_bold_from_plain by (done || lia || (subst t; done)).
    replace (String.length a + String.length t - String.length a)%nat
      with (String.length t) by lia.
    subst t.
    change ("**" +:+ inner +:+ "**" +:+ b)
      with (String star (String star (inner +:+ String star (String star b)))).
    cbn [String.length].
    rewrite (split_bold_from_bold _ _ inner b Hinner Hline).
    fold (String.rev a). rewrite rev_rev. f_equal. f_equal.
    apply split_bold_from_fuel; [|done].
    rewrite length_append. simpl. lia. }
  split; [exact Hsplit|].
  unfold render_line. rewrite Hsplit.
  assert (Hbullet : startsWith "- " (a +:+ t) || startsWith "* " (a +:+ t)
                    = false).
  { subst t. destruct a as [|c1 a0]; [reflexivity|].
    apply free_of_cons in Ha as [Hc1 _].
    rewrite append_cons.
    rewrite (startsWith_cons_neq star c1) by (intros Heq; by apply Hc1).
    rewrite orb_false_r. unfold startsWith in *.
    destruct a0 as [|c2 a'].
    - cbn [String.prefix]. by destruct (ascii_dec "-" c1).
    - rewrite append_cons. cbn [String.prefix] in *.
      destruct (ascii_dec "-" c1); [|done].
      destruct (ascii_dec " " c2); [|done].
      by destruct a'. }
  rewrite Hbullet. cbn [map]. f_equal. f_equal; [by apply render_part_plain|].
  f_equal. apply (render_part_bold inner).
Qed.

(** ** More on the dictionary *)

Lemma flatten_vocabulary_holds items w :
  Exists (holds_word w) items → w ∈ words (flatten_vocabulary items).
Proof.
  induction 1 as [it items Hit|it items _ IH];
    simpl; unfold words in *; rewrite map_app, elem_of_app.
  - left. rewrite map_map. exact Hit.
  - by right.
Qed.

Lemma dedupe_keeps_words l acc w :
  w ∈ words acc ∨ w ∈ words l → w ∈ words (foldl dedupe_step acc l).
Proof.
  revert acc. induction l as [|x l IH]; intros acc Hw; simpl.
  - destruct Hw as [Hw|Hw]; [done|]. by apply elem_of_nil in Hw.
  - apply IH.
    assert (Hstep : ∀ u, u ∈ words acc → u ∈ words (dedupe_step acc x)).
    { intros u Hu.
      destruct (dedupe_step_cases acc x) as [[_ ->]|[_ ->]]; [done|].
      unfold words in *. rewrite map_app, elem_of_app. by left. }
    destruct Hw as [Hw|Hw]; [left; by apply Hstep|].
    unfold words in Hw. simpl in Hw.
    apply elem_of_cons in Hw as [->|Hw]; [left|by right].
    destruct (dedupe_step_cases acc x) as [[Hin ->]|[_ ->]]; [done|].
    unfold words. rewrite map_app, elem_of_app. right. simpl.
    apply elem_of_cons. by left.
Qed.

Lemma filter_StronglySorted {A} (R : A → A → Prop) (f : A → bool) l :
  StronglySorted R l → StronglySorted R (List.filter f l).
Proof.
  induction 1 as [|x l Hl IH Hx]; simpl; [constructor|].
  destruct (f x); [|done]. constructor; [done|].
  apply Forall_forall. intros y Hy.
  apply list_elem_of_In, filter_In in Hy as [Hy _].
  rewrite Forall_forall in Hx. by apply Hx, list_elem_of_In.
Qed.

Lemma filter_implies_sublist {A} (f g : A → bool) l :
  (∀ x, x ∈ l → f x = true → g x = true) →
  sublist (List.filter f l) (List.filter g l).
Proof.
  induction l as [|x l IH]; intros Himp; simpl; [constructor|].
  assert (Hl : sublist (List.filter f l) (List.filter g l)).
  { apply IH. intros y Hy. apply Himp. by apply elem_of_cons; right. }
  destruct (f x) eqn:Hf.
  - rewrite (Himp x) by (done || by apply elem_of_cons; left).
    by constructor.
  - destruct (g x); [by constructor|done].
Qed.

Lemma occurs_in_trans t t' s :
  occurs_in t t' → occurs_in t' s → occurs_in t s.
Proof.
  intros (c & d & ->) (a & b & ->).
  exists (a +:+ c), (d +:+ b). by rewrite !append_assoc.
Qed.

Section MoreDictionaryFacts.
Context `{Locale}.

(** X23: the index holds the words of the history and no others: a
    word is the word of an entry exactly when the vocabulary of some
    record holds it.  No property of [localeCompare] is needed for
    that. *)
Theorem allVocab_words (items : list AnalysisResult) (w : string) :
  w ∈ words (allVocab items) ↔ Exists (holds_word w) items.
Proof.
  unfold allVocab, words. rewrite merge_sort_Permutation.
  fold (words (foldl dedupe_step [] (flatten_vocabulary items))). split.
  - intros [Hw|Hw]%dedupe_words; [by apply elem_of_nil in Hw|].
    by apply words_flatten_vocabulary.
  - intros Hw. apply dedupe_keeps_words. right.
    by apply flatten_vocabulary_holds.
Qed.

(** X24: what a search shows is still an index: with a
    [localeCompare] that is total and transitive, the entries found are
    sorted by word and no word is shown twice. *)
Theorem filteredVocab_of_index (items : list AnalysisResult) (term : string) :
  (∀ a b, localeCompare a b ≤ 0 ∨ localeCompare b a ≤ 0) →
  (∀ a b c, localeCompare a b ≤ 0 → localeCompare b c ≤ 0 →
            localeCompare a c ≤ 0) →
  StronglySorted by_word (filteredVocab term (allVocab items))
  ∧ NoDup (words (filteredVocab term (allVocab items))).
Proof.
  intros Htotal Htrans.
  assert (Total by_word) by (intros a b; apply Htotal).
  assert (Transitive by_word) by (intros a b c; apply Htrans).
  assert (Hsub : sublist (words (filteredVocab term (allVocab items)))
                   (words (allVocab items))).
  { unfold words. apply (fmap_sublist (λ e, word (item e))), filter_sublist. }
  split.
  - apply filter_StronglySorted, StronglySorted_merge_sort; apply _.
  - eapply sublist_NoDup; [|exact Hsub].
    unfold allVocab, words. rewrite merge_sort_Permutation.
    by apply dedupe_NoDup, NoDup_nil.
Qed.

(** X25: a longer search term narrows the search: if the lowered term
    [short] occurs in the lowered term [long], every entry found for
    [long] is found for [short], in the same order. *)
Theorem filteredVocab_narrows (short long : string)
    (all : list TaggedVocabulary) :
  occurs_in (toLowerCase short) (toLowerCase long) →
  sublist (filteredVocab long all) (filteredVocab short all).
Proof.
  intros Hocc. apply filter_implies_sublist. intros v _.
  unfold matches. rewrite !orb_true_iff, !includes_occurs.
  intros [[Hv|Hv]|Hv]; [left; left|left; right|right];
    by apply (occurs_in_trans _ _ _ Hocc).
Qed.

End MoreDictionaryFacts.

(** ** What the service returns, and what a delete can do *)

Lemma array_filter_sublist f l kept :
  array_filter f l = ret kept → sublist kept l.
Proof.
  revert kept. induction l as [|x l IH]; intros kept; simpl.
  - intros [= <-]. constructor.
  - destruct (f x) as [e|keep]; [discriminate|]. simpl.
    destruct (array_filter f l) as [e|rest]; [discriminate|]. simpl.
    intros [= <-]. destruct keep; constructor; by apply IH.
Qed.

Section ServiceFacts.
Context `{Platform}.

(** X26: whatever the id and the records, a delete that completes
    only removes: the new history is the old one with some records left
    out, in the same order; the tutor answer, the log and the alerts are
    untouched; without the user's confirmation nothing changes at all,
    and with it the stored snapshot is the text of the new history. *)
Theorem handleDelete_only_removes (id : string) (confirmed : bool)
    (w w' : World) :
  handleDelete id confirmed w = ret w' →
  sublist (history w') (history w)
  ∧ qaResult w' = qaResult w
  ∧ console w' = console w
  ∧ alerts w' = alerts w
  ∧ (confirmed = false → w' = w)
  ∧ (confirmed = true →
     localStorage w' !! "lingolog_history"
     = Some (JSON_stringify (JArr (history w')))).
Proof.
  unfold handleDelete. destruct confirmed.
  - destruct (array_filter _ (history w)) as [e|kept] eqn:Hkept;
      [discriminate|].
    simpl. intros [= <-]. simpl.
    split; [by eapply array_filter_sublist|].
    repeat split; [done|]. intros _. apply lookup_insert_eq.
  - intros [= <-]. by repeat split.
Qed.

(** X27: [analyzeSentence] returns a value exactly when there is an
    API key, the model call resolved with a text that is not empty, and
    that text parses as JSON; the value is then what the text parsed to.
    [askTutor] returns exactly when there is a key and the call
    resolved. *)
Theorem service_returns_iff (sentence : string) (context : option JSON)
    (response : result (option string)) :
  (∀ v,
     analyzeSentence sentence response = ret v
     ↔ is_Some (truthy API_KEY)
       ∧ ∃ text, response = ret (Some text)
                 ∧ text ≠ EmptyString
                 ∧ JSON_parse text = Some v)
  ∧ ((∃ answer, askTutor sentence context response = ret answer)
     ↔ is_Some (truthy API_KEY) ∧ ∃ text, response = ret text).
Proof.
  unfold analyzeSentence, askTutor, getAI. split; [intros v|]; split.
  - destruct (truthy API_KEY) as [key|]; [|discriminate]. simpl.
    destruct response as [e|[[|c text]|]]; simpl; try discriminate.
    destruct (JSON_parse (String c text)) as [v'|] eqn:Hp; [|discriminate].
    intros [= <-]. split; [by eexists|]. by exists (String c text).
  - intros [[key ->] (text & -> & Hne & Hp)]. simpl.
    destruct text as [|c text]; [done|]. simpl. by rewrite Hp.
  - destruct (truthy API_KEY) as [key|]; [|by intros [? [=]]]. simpl.
    destruct response as [e|text]; simpl; [by intros [? [=]]|].
    intros _. split; [by eexists|]. by exists text.
  - intros [[key ->] (text & ->)]. simpl. by eexists.
Qed.

End ServiceFacts.

(** ** The further properties at sample inputs *)

Lemma reachable_one_record :
  reachable (H := browser (Some "key")) one_record.
Proof.
  apply reach_analyze. apply (reach_startup (H := browser (Some "key")) ∅).
  reflexivity.
Qed.

Lemma one_record_not_null :
  Forall (λ item, item ≠ JNull) (history one_record).
Proof. vm_compute. repeat constructor; discriminate. Qed.

Lemma two_records_not_null :
  Forall (λ item, item ≠ JNull) (history two_records).
Proof. vm_compute. repeat constructor; discriminate. Qed.

Lemma no_api_key_no_result_witness :
  history (handleAnalyze (H := browser None) "neko"
             (ret (Some sample_text)) 1700000000000 1700000000000
             first_visit) = []
  ∧ qaResult (handleAskTutor (H := browser None) "neko"
                (ret (Some sample_text)) 1700000000000 1700000000000
                first_visit) = None.
Proof.
  destruct (no_api_key_no_result (H := browser None) "neko"
              (ret (Some sample_text)) 1700000000000 1700000000000
              first_visit)
    as (Hhist & _ & Hqa & _).
  - reflexivity.
  - split; [exact Hhist|exact Hqa].
Defined.

Lemma handleAnalyze_overrides_witness :
  ∃ record,
    history (handleAnalyze (H := browser (Some "key")) "neko"
               (ret (Some clashing_text)) 1700000000000 1700000000001
               first_visit)
    = [record]
    ∧ get_prop record "id" = ret (Some (JStr "1700000000000"))
    ∧ get_prop record "timestamp" = ret (Some (JNum 1700000000001))
    ∧ get_prop record "original" = ret (Some (JStr "neko"))
    ∧ get_prop record "translation" = ret (Some (JStr "a cat")).
Proof.
  destruct (handleAnalyze_overrides (H := browser (Some "key")) "neko"
              (ret (Some clashing_text)) clashing_response
              1700000000000 1700000000001 first_visit)
    as (record & Hhist & Hid & Hts & Horig & Hother).
  - vm_compute. reflexivity.
  - exists record. split; [exact Hhist|]. split; [exact Hid|].
    split; [exact Hts|]. split; [exact Horig|].
    rewrite Hother by done. reflexivity.
Defined.

Lemma handleAskTutor_relatedSentence_witness :
  ∃ answer,
    qaResult (handleAskTutor (H := browser (Some "key")) "wa?"
                (ret (Some "wa marks the topic"))
                1700000000300 1700000000301 one_record)
    = Some (QaResult.mk "1700000000300" 1700000000301 "wa?" answer
              (Some (JStr "neko"))).
Proof.
  destruct (handleAskTutor_relatedSentence (H := browser (Some "key"))
              "wa?" "wa marks the topic" 1700000000300 1700000000301
              one_record)
    as (answer & related & Hqa & Hrel).
  - simpl. eauto.
  - exact one_record_not_null.
  - exists answer. rewrite Hqa. vm_compute in Hrel.
    injection Hrel as <-. reflexivity.
Defined.

Lemma append_then_delete_witness :
  ∃ w'',
    handleDelete (H := browser (Some "key")) "1700000000250" true two_records
    = ret w''
    ∧ history w'' = history one_record.
Proof.
  destruct (append_then_delete (H := browser (Some "key")) "inu"
              (ret (Some sample_text)) (js_of_AnalysisPayload sample_payload)
              1700000000250 1700000000250 one_record)
    as (w'' & Hdel & _ & Hsame).
  - exact one_record_not_null.
  - vm_compute. reflexivity.
  - exists w''. split; [exact Hdel|]. apply Hsame.
    vm_compute. repeat constructor.
Defined.

Lemma handleDelete_twice_and_order_witness :
  ∃ wa waa wab wb wba,
    handleDelete (H := browser (Some "key")) "1700000000000" true two_records
    = ret wa
    ∧ handleDelete (H := browser (Some "key")) "1700000000000" true wa
      = ret waa
    ∧ handleDelete (H := browser (Some "key")) "1700000000250" true wa
      = ret wab
    ∧ handleDelete (H := browser (Some "key")) "1700000000250" true two_records
      = ret wb
    ∧ handleDelete (H := browser (Some "key")) "1700000000000" true wb
      = ret wba
    ∧ history waa = history wa
    ∧ history wab = history wba.
Proof.
  apply (handleDelete_twice_and_order (H := browser (Some "key"))
           "1700000000000" "1700000000250" two_records).
  exact two_records_not_null.
Defined.

Lemma null_record_breaks_handlers_witness :
  ∃ w,
    startup (H := browser (Some "key"))
      {[ "lingolog_history" := snapshot_with_null ]} = Mounted w
    ∧ handleDelete (H := browser (Some "key")) "1700000000000" true w
      = throw TypeError.
Proof.
  eexists. split; [vm_compute; reflexivity|].
  refine (proj1 (null_record_breaks_handlers (H := browser (Some "key"))
                   "1700000000000" "wa?" (ret None) 0 0 _ _)).
  simpl. do 2 constructor.
Defined.

Lemma startup_without_snapshot_witness :
  ∃ w,
    startup (H := browser (Some "key")) {[ "theme" := "dark" ]} = Mounted w
    ∧ history w = []
    ∧ localStorage w !! "theme" = Some "dark"
    ∧ localStorage w !! "lingolog_history" = Some "[]".
Proof.
  destruct (startup_without_snapshot (H := browser (Some "key"))
              {[ "theme" := "dark" ]})
    as (w & Hstart & Hhist & _ & _ & _ & Hstore).
  - reflexivity.
  - exists w. split; [exact Hstart|]. split; [exact Hhist|].
    rewrite Hstore. split; reflexivity.
Defined.

Lemma snapshot_adopted_unchecked_witness :
  analyze_tab_reads
    (setHistory (λ _, [JNum 1; JNull])
       (saveEffect (H := browser (Some "key"))
          (mount {[ "lingolog_history" := "[1,null]" ]})))
  = Some (throw TypeError)
  ∧ localStorage
      (setHistory (λ _, [JNum 1; JNull])
         (saveEffect (H := browser (Some "key"))
            (mount {[ "lingolog_history" := "[1,null]" ]})))
    !! "lingolog_history" = Some "[]".
Proof.
  destruct (snapshot_adopted_unchecked (H := browser (Some "key"))
              {[ "lingolog_history" := "[1,null]" ]} "[1,null]"
              [JNum 1; JNull])
    as [_ Hrender].
  - reflexivity.
  - discriminate.
  - vm_compute. reflexivity.
  - apply (Hrender (JNum 1) [JNull]); [reflexivity|reflexivity|].
    intros gp. discriminate.
Defined.

Lemma reachable_not_busy_witness : isAnalyzing one_record = false.
Proof.
  apply (reachable_not_busy (H := browser (Some "key")) one_record).
  exact reachable_one_record.
Defined.


Lemma reachable_invariant_witness :
  localStorage one_record !! "lingolog_history"
  = Some (JSONText.stringify (JArr (history one_record))).
Proof.
  apply (reachable_invariant (Some "key") one_record).
  exact reachable_one_record.
Defined.

Lemma handleSubmit_blank_witness :
  handleSubmit (H := browser (Some "key")) "   " analysis
    (ret (Some sample_text)) 1700000000000 1700000000000 first_visit
  = first_visit.
Proof.
  apply (handleSubmit_blank (H := browser (Some "key"))).
  reflexivity.
Defined.

Lemma handleSubmit_as_typed_witness :
  ∃ record,
    history (handleSubmit (H := browser (Some "key")) "  neko  " analysis
               (ret (Some sample_text)) 1700000000000 1700000000000
               first_visit)
    = [record]
    ∧ get_prop record "original" = ret (Some (JStr "  neko  ")).
Proof.
  destruct (handleSubmit_as_typed (H := browser (Some "key")) "  neko  "
              (ret (Some sample_text)) (js_of_AnalysisPayload sample_payload)
              1700000000000 1700000000000 first_visit)
    as [Hrecord _].
  - reflexivity.
  - vm_compute. reflexivity.
  - exact Hrecord.
Defined.

Lemma display_after_analyze_witness :
  ∃ q,
    display
      (handleAnalyze (H := browser (Some "key")) "neko"
         (ret (Some sample_text)) 1700000000100 1700000000100
         (handleAskTutor (H := browser (Some "key")) "wa?"
            (ret (Some "wa marks the topic")) 1700000000200 1700000000200
            first_visit))
    = Some (TutorAnswer q).
Proof.
  rewrite (display_after_analyze (H := browser (Some "key")) "neko"
             (ret (Some sample_text)) (js_of_AnalysisPayload sample_payload)
             1700000000100 1700000000100)
    by (vm_compute; reflexivity).
  vm_compute. eexists. reflexivity.
Defined.

Lemma display_after_ask_witness :
  ∃ record,
    display
      (handleAskTutor (H := browser (Some "key")) "wa?"
         (ret (Some "wa marks the topic")) 1700000000000 1700000000000
         one_record)
    = Some (Analysis record).
Proof.
  destruct (display_after_ask (H := browser (Some "key")) "wa?"
              "wa marks the topic" 1700000000000 1700000000000 one_record)
    as (q & _ & _ & Hdisplay).
  - simpl. eauto.
  - right. do 3 eexists. split; vm_compute; reflexivity.
  - rewrite Hdisplay. vm_compute. eexists. reflexivity.
Defined.

Lemma render_line_plain_witness :
  render_line "neko *is* a cat" = Paragraph [Plain "neko *is* a cat"].
Proof. apply render_line_plain; reflexivity. Defined.

Lemma render_line_bold_witness :
  render_line "The **cat** sleeps"
  = Paragraph [Plain "The "; Strong "cat"; Plain " sleeps"].
Proof.
  destruct (render_line_bold "The " "cat" " sleeps") as [_ Hline];
    [reflexivity..|].
  exact Hline.
Defined.

Lemma filteredVocab_of_index_witness :
  StronglySorted (by_word (H := code_unit_locale))
    (filteredVocab (H := code_unit_locale) "ne"
       (allVocab (H := code_unit_locale) sample_history)).
Proof.
  apply (filteredVocab_of_index (H := code_unit_locale) sample_history "ne").
  - exact compare_code_units_total.
  - exact compare_code_units_trans.
Defined.

Lemma filteredVocab_narrows_witness :
  sublist
    (filteredVocab (H := code_unit_locale) "NEK"
       (allVocab (H := code_unit_locale) sample_history))
    (filteredVocab (H := code_unit_locale) "ne"
       (allVocab (H := code_unit_locale) sample_history)).
Proof.
  apply (filteredVocab_narrows (H := code_unit_locale) "ne" "NEK").
  exists EmptyString, "k". reflexivity.
Defined.

Lemma handleDelete_only_removes_witness :
  ∃ w',
    handleDelete (H := browser (Some "key")) "1700000000000" true two_records
    = ret w'
    ∧ sublist (history w') (history two_records).
Proof.
  eexists. split; [vm_compute; reflexivity|].
  refine (proj1 (handleDelete_only_removes (H := browser (Some "key"))
                   "1700000000000" true two_records _ _)).
  vm_compute. reflexivity.
Defined.
